(** * X Space transcript pipeline: a shallow embedding of the services

    The development follows the four service classes of the application
    (audioService, transcriptionService, summaryService, xSpaceService).

    - JavaScript strings are sequences of UTF-16 code units ([list N]).
    - JavaScript numbers are IEEE-754 binary64 values ([float], the kernel's
      primitive floats, which round to nearest-even exactly as the language
      does).  Array indices, lengths and byte counts are integers far below
      2^53, where double arithmetic is exact; they are kept in [nat] and [Z].
    - Exceptions are values of [Result]; asynchronous operations are run
      sequentially in a state-and-error monad whose state is the trace of the
      effects performed so far.  The network and the audio decoder answer
      through oracles that may depend on the whole trace. *)

From Stdlib Require Import ZArith NArith QArith Lqa Floats String Ascii Lia DecimalNat.
From stdpp Require Import base option list.

Set Warnings "-inexact-float,-register-all".
Close Scope Q_scope.
Local Open Scope nat_scope.

(* ===================================================================== *)
(** * Part I. Definitions                                                 *)
(* ===================================================================== *)

(** ** The language runtime *)

Module JS.

(** A string is its sequence of UTF-16 code units. *)
Abbreviation jsstring := (list N) (only parsing).

(** Code units of an ASCII literal. *)
Fixpoint lit (s : string) : jsstring :=
  match s with
  | EmptyString => []
  | String a r => N_of_ascii a :: lit r
  end.

(** The bullet character U+2022. *)
Definition bullet : N := 8226%N.

(** [s ? ... : ...] for a string: the empty string is falsy. *)
Definition truthy_string (s : jsstring) : bool :=
  match s with [] => false | _ :: _ => true end.

(** [String.prototype.startsWith]. *)
Fixpoint startsWith (s p : jsstring) : bool :=
  match p, s with
  | [], _ => true
  | _ :: _, [] => false
  | a :: p', b :: s' => N.eqb a b && startsWith s' p'
  end.

(** [String.prototype.includes]. *)
Fixpoint includes (s sub : jsstring) : bool :=
  startsWith s sub ||
  match s with
  | [] => false
  | _ :: s' => includes s' sub
  end.

(** [String.prototype.split] with a one-code-unit separator. *)
Fixpoint split (sep : N) (s : jsstring) : list jsstring :=
  match s with
  | [] => [[]]
  | c :: r =>
      if N.eqb c sep then [] :: split sep r
      else match split sep r with
           | [] => [[c]]
           | w :: ws => (c :: w) :: ws
           end
  end.

(** WhiteSpace and LineTerminator code points: what [trim] strips and what
    the regular-expression class [\s] matches. *)
Definition isWhiteSpace (c : N) : bool :=
  ((9 <=? c) && (c <=? 13) || (c =? 32) || (c =? 160) || (c =? 5760)
   || (8192 <=? c) && (c <=? 8202) || (c =? 8232) || (c =? 8233)
   || (c =? 8239) || (c =? 8287) || (c =? 12288) || (c =? 65279))%N.

Fixpoint trimStart (s : jsstring) : jsstring :=
  match s with
  | c :: r => if isWhiteSpace c then trimStart r else s
  | [] => []
  end.

Definition trimEnd (s : jsstring) : jsstring := reverse (trimStart (reverse s)).

Definition trim (s : jsstring) : jsstring := trimEnd (trimStart s).

(** Leftmost match of an alternation of literals [/(a1|a2|...)/]: at each
    position the alternatives are tried in order. *)
Fixpoint match_alternatives (alts : list jsstring) (s : jsstring) : option jsstring :=
  match List.find (startsWith s) alts with
  | Some a => Some a
  | None =>
      match s with
      | [] => None
      | _ :: r => match_alternatives alts r
      end
  end.

(** [s.replace(/^[-•]\s*/, '')]. *)
Definition strip_bullet (s : jsstring) : jsstring :=
  match s with
  | c :: r => if (c =? 45)%N || (c =? bullet)%N then trimStart r else s
  | [] => []
  end.

(** [s.match(/\{[\s\S]*\}/)]: from the first opening brace to the last
    closing brace after it (the star is greedy); [None] is JavaScript's
    [null]. *)
Fixpoint upto_last (c : N) (s : jsstring) : option jsstring :=
  match s with
  | [] => None
  | x :: r =>
      match upto_last c r with
      | Some m => Some (x :: m)
      | None => if N.eqb x c then Some [x] else None
      end
  end.

Fixpoint match_braces (s : jsstring) : option jsstring :=
  match s with
  | [] => None
  | x :: r =>
      if N.eqb x 123 then
        match upto_last 125 r with
        | Some m => Some (x :: m)
        | None => None
        end
      else match_braces r
  end.

(** Leftmost match of [/lit([cls]+)/]; the result is the captured group. *)
Fixpoint take_while (cls : N -> bool) (s : jsstring) : jsstring :=
  match s with
  | c :: r => if cls c then c :: take_while cls r else []
  | [] => []
  end.

Fixpoint strip_prefix (p s : jsstring) : option jsstring :=
  match p, s with
  | [], _ => Some s
  | _ :: _, [] => None
  | a :: p', b :: s' => if N.eqb a b then strip_prefix p' s' else None
  end.

Fixpoint match_capture (prefix : jsstring) (cls : N -> bool) (s : jsstring) : option jsstring :=
  let here :=
    match strip_prefix prefix s with
    | Some rest => match take_while cls rest with [] => None | g => Some g end
    | None => None
    end in
  match here with
  | Some g => Some g
  | None =>
      match s with
      | [] => None
      | _ :: r => match_capture prefix cls r
      end
  end.

Definition isDigit (c : N) : bool := ((48 <=? c) && (c <=? 57))%N.

Definition isAlnum (c : N) : bool :=
  ((97 <=? c) && (c <=? 122) || (65 <=? c) && (c <=? 90) || isDigit c)%N.

(** Decimal rendering of a non-negative integer, as a template literal
    renders an integral number below 10^21. *)
Fixpoint uint_digits (d : Decimal.uint) : jsstring :=
  match d with
  | Decimal.Nil => []
  | Decimal.D0 r => 48%N :: uint_digits r
  | Decimal.D1 r => 49%N :: uint_digits r
  | Decimal.D2 r => 50%N :: uint_digits r
  | Decimal.D3 r => 51%N :: uint_digits r
  | Decimal.D4 r => 52%N :: uint_digits r
  | Decimal.D5 r => 53%N :: uint_digits r
  | Decimal.D6 r => 54%N :: uint_digits r
  | Decimal.D7 r => 55%N :: uint_digits r
  | Decimal.D8 r => 56%N :: uint_digits r
  | Decimal.D9 r => 57%N :: uint_digits r
  end.

Definition decimal (n : nat) : jsstring := uint_digits (Nat.to_uint n).

(** *** Numbers *)

(** An integer below 2^53 as a number. *)
Definition of_Z (z : Z) : float := PrimFloat.of_uint63 (Uint63.of_Z z).
Definition of_nat (n : nat) : float := of_Z (Z.of_nat n).

(** A number in a condition: zero (of either sign) and NaN are falsy. *)
Definition truthy_number (x : float) : bool :=
  negb (PrimFloat.is_zero x || PrimFloat.is_nan x).

(** [Math.max] and [Math.min] of two numbers: NaN is contagious and
    [+0] is larger than [-0]. *)
Definition Math_max (a b : float) : float :=
  if PrimFloat.is_nan a || PrimFloat.is_nan b then PrimFloat.nan
  else if PrimFloat.ltb a b then b
  else if PrimFloat.ltb b a then a
  else if PrimFloat.get_sign a then b else a.

Definition Math_min (a b : float) : float :=
  if PrimFloat.is_nan a || PrimFloat.is_nan b then PrimFloat.nan
  else if PrimFloat.ltb a b then a
  else if PrimFloat.ltb b a then b
  else if PrimFloat.get_sign a then a else b.

(** The integer part of a finite number (truncation toward zero); [None]
    for NaN and the infinities. *)
Definition truncate (x : float) : option Z :=
  match Prim2SF x with
  | S754_zero _ => Some 0%Z
  | S754_finite s m e =>
      let a := Z.shiftl (Z.pos m) e in
      Some (if s then (- a)%Z else a)
  | S754_infinity _ => None
  | S754_nan => None
  end.

(** The exact rational value of a finite number. *)
Definition exact (x : float) : Q :=
  match Prim2SF x with
  | S754_finite s m e =>
      let v := match e with
               | Z0 => inject_Z (Z.pos m)
               | Zpos p => inject_Z (Z.pos m * 2 ^ Z.pos p)
               | Zneg p => Qmake (Z.pos m) (2 ^ p)%positive
               end in
      if s then Qopp v else v
  | _ => 0%Q
  end.

(** *** Errors *)

Record Error := mkError { name : jsstring; message : jsstring }.

(** [new Error(msg)]. *)
Definition newError (msg : jsstring) : Error :=
  {| name := lit "Error"; message := msg |}.

(** [`${error}`], that is [Error.prototype.toString]. *)
Definition Error_toString (e : Error) : jsstring :=
  match name e, message e with
  | [], m => m
  | n, [] => n
  | n, m => n ++ lit ": " ++ m
  end.

Inductive Result (A : Type) : Type :=
| Ok (a : A)
| Err (e : Error).
Arguments Ok {A} a.
Arguments Err {A} e.

(** *** JSON values, as [JSON.parse] produces them *)

Inductive JSValue : Type :=
| JNull
| JBool (b : bool)
| JNum (x : float)
| JStr (s : jsstring)
| JArr (items : list JSValue)
| JObj (fields : list (jsstring * JSValue)).

(** Property read [v.key]: [Ok None] is [undefined]; reading a property of
    [null] throws a TypeError.  None of the keys read by the services is
    defined on the prototypes of strings, numbers, booleans or arrays. *)
Fixpoint lookup_field (key : jsstring) (fields : list (jsstring * JSValue)) : option JSValue :=
  match fields with
  | [] => None
  | (k, v) :: r => if bool_decide (k = key) then Some v else lookup_field key r
  end.

Definition get (v : JSValue) (key : jsstring) : Result (option JSValue) :=
  match v with
  | JNull =>
      Err {| name := lit "TypeError";
             message := lit "Cannot read properties of null" |}
  | JObj fields => Ok (lookup_field key fields)
  | _ => Ok None
  end.

(** Truthiness of a possibly undefined value. *)
Definition truthy (v : option JSValue) : bool :=
  match v with
  | None => false
  | Some JNull => false
  | Some (JBool b) => b
  | Some (JNum x) => truthy_number x
  | Some (JStr s) => truthy_string s
  | Some (JArr _) => true
  | Some (JObj _) => true
  end.

(** The built-ins whose behaviour depends on the engine's Unicode tables
    and JSON reader. *)
Record Runtime := {
  toLowerCase : jsstring -> jsstring;
  JSON_parse : jsstring -> Result JSValue
}.

(** Lowercasing of the ASCII letters; [String.prototype.toLowerCase]
    coincides with it on strings of ASCII code units. *)
Definition ascii_lower (c : N) : N :=
  if ((65 <=? c) && (c <=? 90))%N then (c + 32)%N else c.

Definition ascii_toLowerCase (s : jsstring) : jsstring := map ascii_lower s.

Definition is_ascii (s : jsstring) : Prop := Forall (fun c => (c < 128)%N) s.

(** [x || 0] for a possibly missing number. *)
Definition number_or_zero (x : option float) : float :=
  match x with
  | Some v => if truthy_number v then v else 0%float
  | None => 0%float
  end.

(** [x || ''] and [x || d] for a possibly missing string. *)
Definition string_or (x : option jsstring) (d : jsstring) : jsstring :=
  match x with
  | Some v => if truthy_string v then v else d
  | None => d
  end.

End JS.

Import JS.

(** ** The records exchanged by the services *)

Module Data.

(** A provider segment as it arrives: each field may be missing. *)
Record ProviderSegment := {
  seg_start : option float;
  seg_end : option float;
  seg_text : option jsstring
}.

Record TranscriptionSegment := {
  start : float;
  end_ : float;
  text : jsstring;
  speaker : option jsstring
}.

Record TranscriptionResult := {
  result_text : jsstring;
  segments : list TranscriptionSegment;
  speakers : list jsstring;
  language : jsstring;
  confidence : float
}.

(** The record returned to the caller.  The declared field types are erased
    at run time: on the JSON path [summary] and the array elements are
    whatever values the parsed document holds. *)
Record SummaryResult := {
  summary : JSValue;
  keyPoints : list JSValue;
  topics : list JSValue;
  sentiment : jsstring;
  actionItems : list JSValue;
  participants : list JSValue
}.

(** The decoded audio handed over by the browser.  [sampleRate] is taken
    as an integer number of hertz. *)
Module AudioBuffer.
Record t := {
  length : nat;
  numberOfChannels : nat;
  sampleRate : Z;
  getChannelData : nat -> nat -> float
}.
End AudioBuffer.

Record Blob := { blob_bytes : list Z; blob_type : jsstring }.

Module XSpaceMetadata.
Record t := {
  id : jsstring;
  title : jsstring;
  hostUsername : jsstring;
  participantCount : float;
  isLive : bool;
  scheduledStart : option jsstring;
  actualStart : option jsstring;
  estimatedEnd : option jsstring;
  state : jsstring
}.
End XSpaceMetadata.

Record XSpaceProcessingResult := {
  metadata : XSpaceMetadata.t;
  transcription : TranscriptionResult;
  summary_ : SummaryResult;
  audioUrl : option jsstring
}.

End Data.

Import Data.

(** ** Effects: the network, the decoder and the trace *)

Module Effects.

Import Data.

Record Config := {
  VITE_OPENAI_API_KEY : option jsstring;
  VITE_PROXY_SERVER_URL : option jsstring;
  VITE_PROXY_SERVER_ACCESS_TOKEN : option jsstring;
  VITE_TWITTER_BEARER_TOKEN : option jsstring
}.

(** What the oracles see of a call of [fetch]: the address, the method,
    the bearer token, and for a call through the forwarder the address and
    method wrapped in its body.  The remaining headers and the payload are
    not modelled. *)
Record Request := {
  url : jsstring;
  method : jsstring;
  bearer : option jsstring;
  forwarded : option (jsstring * jsstring)
}.

Record SpaceObject := {
  space_id : option jsstring;
  space_title : option jsstring;
  participant_count : option float;
  space_state : option jsstring;
  scheduled_start : option jsstring;
  started_at : option jsstring;
  ended_at : option jsstring
}.

(** The body of a response once [response.json()] has read it, by the
    shape the reader expects.  A body of another shape has none of the
    fields the reader asks for; [PNull] is the JSON text [null]. *)
Inductive Payload :=
| PNull
| PTranscription (text : option jsstring) (segments : option (list ProviderSegment))
    (language : option jsstring)
| PCompletion (content : option jsstring)
| PSpace (data : option SpaceObject) (host_username : option jsstring)
| PAudioStream (audio_url : option jsstring)
| PError (error_message : option jsstring)
| POther.

Record Response := {
  ok : bool;
  statusText : jsstring;
  json : Result Payload;
  blob : Result Blob
}.

(** The operations of the services whose invocation the trace records. *)
Inductive Operation :=
| OpExtractSpaceMetadata
| OpExtractAudioUrl
| OpExtractAudioFromUrl
| OpConvertToWav
| OpTranscribeAudio
| OpGenerateSummary.

(** What a computation leaves in the trace: a call of [fetch], a call of
    the audio decoder, and the entry into one of the operations above. *)
Inductive Event :=
| EvFetch (request : Request)
| EvDecodeAudio
| EvCall (op : Operation).

(** The configuration, the language runtime and the two oracles.  An
    oracle is given the trace at the moment of the call, so its answer may
    depend on everything that happened before. *)

Record Env := {
  config : Config;
  runtime : Runtime;
  network : list Event -> Request -> Result Response;
  decoder : list Event -> list Z -> Result AudioBuffer.t
}.

(** A computation reads the trace of what happened so far and extends it. *)
Definition M (A : Type) : Type := list Event -> Result A * list Event.

Definition ret {A} (a : A) : M A := fun t => (Ok a, t).

Definition throw {A} (e : Error) : M A := fun t => (Err e, t).

Definition bind {A B} (m : M A) (k : A -> M B) : M B :=
  fun t =>
    match m t with
    | (Ok a, t') => k a t'
    | (Err e, t') => (Err e, t')
    end.

(** [try { m } catch (error) { handler }]. *)
Definition try_catch {A} (m : M A) (handler : Error -> M A) : M A :=
  fun t =>
    match m t with
    | (Ok a, t') => (Ok a, t')
    | (Err e, t') => handler e t'
    end.

Definition emit (e : Event) : M unit := fun t => (Ok tt, t ++ [e]).

(** A pure computation that may throw. *)
Definition lift {A} (r : Result A) : M A := fun t => (r, t).

Declare Scope effect_scope.
Delimit Scope effect_scope with effect.
Bind Scope effect_scope with M.

Notation "'let*' x := m 'in' k" := (bind m (fun x => k))
  (at level 10, x pattern, m at level 100, k at level 200) : effect_scope.
Notation "m ;; k" := (bind m (fun _ => k))
  (at level 100, k at level 200, right associativity) : effect_scope.

Section Oracles.

Context (env : Env).

(** [await fetch(...)]: the call is recorded, then the network answers. *)
Definition fetch (request : Request) : M Response :=
  fun t => (network env t request, t ++ [EvFetch request]).

(** [await audioContext.decodeAudioData(await blob.arrayBuffer())]. *)
Definition decodeAudioData (bytes : list Z) : M AudioBuffer.t :=
  fun t => (decoder env t bytes, t ++ [EvDecodeAudio]).

End Oracles.

(** [import.meta.env.X || 'undefined']. *)
Definition or_undefined (v : option jsstring) : jsstring := string_or v (lit "undefined").

(** [x ? ... : ...] for a possibly missing string. *)
Definition present (v : option jsstring) : bool :=
  match v with
  | Some s => truthy_string s
  | None => false
  end.

(** [`Bearer ${token}`] for a possibly missing token. *)
Definition Bearer (token : option jsstring) : jsstring :=
  lit "Bearer " ++ match token with Some s => s | None => lit "undefined" end.



(** A later trace that only adds events satisfying [P]. *)
Definition only_adds (P : Event -> Prop) (t t' : list Event) : Prop :=
  ∃ events, t' = t ++ events ∧ Forall P events.

(** The events of the stages that follow the retrieval of the audio. *)
Definition is_later_stage (e : Event) : bool :=
  match e with
  | EvCall OpConvertToWav | EvCall OpTranscribeAudio | EvCall OpGenerateSummary
  | EvDecodeAudio => true
  | _ => false
  end.

(** An event that is neither the audio conversion nor a later stage. *)
Definition quiet (e : Event) : Prop := is_later_stage e = false.

End Effects.

Import Effects.
Local Open Scope effect_scope.

(** ** transcriptionService: segment post-processing *)

Module TranscriptionService.

(** The callback of [segments.map] in [processSegments]. *)
Definition processSegment (index : nat) (segment : ProviderSegment) : TranscriptionSegment :=
  {| start := number_or_zero (seg_start segment);
     end_ := number_or_zero (seg_end segment);
     text := string_or (seg_text segment) [];
     speaker := Some (lit "Speaker " ++ decimal (index / 5 + 1)) |}.

Definition processSegments (segments : list ProviderSegment) : list TranscriptionSegment :=
  imap processSegment segments.

(** [Set.prototype.add] on a set kept in insertion order. *)
Definition Set_add (s : list jsstring) (x : jsstring) : list jsstring :=
  if bool_decide (x ∈ s) then s else s ++ [x].

(** The callback of [segments.forEach] in [identifySpeakers]. *)
Definition add_speaker (speakers : list jsstring) (segment : TranscriptionSegment) : list jsstring :=
  match speaker segment with
  | Some sp => if truthy_string sp then Set_add speakers sp else speakers
  | None => speakers
  end.

Definition identifySpeakers (segments : list TranscriptionSegment) : list jsstring :=
  foldl add_speaker [] segments.

(** The value one segment adds to [totalScore] in
    [calculateAverageConfidence]. *)
Definition segmentConfidence (segment : TranscriptionSegment) : float :=
  let textLength := of_nat (length (text segment)) in
  let duration := (end_ segment - start segment)%float in
  let wordsPerSecond := (textLength / Math_max duration 1)%float in
  let confidence := 0.8%float in
  let confidence :=
    if PrimFloat.ltb 2 wordsPerSecond && PrimFloat.ltb wordsPerSecond 8
    then (confidence + 0.1)%float else confidence in
  let confidence :=
    if includes (text segment) (lit ".") || includes (text segment) (lit "?")
    then (confidence + 0.05)%float else confidence in
  Math_min confidence 0.95.

Definition calculateAverageConfidence (segments : list TranscriptionSegment) : float :=
  match segments with
  | [] => 0%float
  | _ :: _ =>
      let totalScore :=
        foldl (fun totalScore segment => (totalScore + segmentConfidence segment)%float)
              0%float segments in
      (totalScore / of_nat (length segments))%float
  end.

(** *** The confidence heuristic as the specification words it *)

(** [String.prototype.endsWith] for a one-code-unit suffix. *)
Definition endsWith1 (s : jsstring) (c : N) : bool :=
  match last s with
  | Some x => N.eqb x c
  | None => false
  end.

Definition base_plus_bonuses (pace punctuated : bool) : float :=
  let score := 0.8%float in
  let score := if pace then (score + 0.1)%float else score in
  let score := if punctuated then (score + 0.05)%float else score in
  Math_min score 0.95.

Definition pace_in_range (segment : TranscriptionSegment) : bool :=
  let ratio := (of_nat (length (text segment))
                / Math_max (end_ segment - start segment) 1)%float in
  PrimFloat.ltb 2 ratio && PrimFloat.ltb ratio 8.

(** "+0.05 if the segment text ends with [.] or [?]". *)
Definition spec_segment_score (segment : TranscriptionSegment) : float :=
  base_plus_bonuses (pace_in_range segment)
    (endsWith1 (text segment) 46 || endsWith1 (text segment) 63).

(** The same with "contains" in place of "ends with". *)
Definition contains_segment_score (segment : TranscriptionSegment) : float :=
  base_plus_bonuses (pace_in_range segment)
    (bool_decide (46%N ∈ text segment) || bool_decide (63%N ∈ text segment)).

(** Arithmetic mean of a sequence of numbers: the running sum, taken from
    the first element on, divided by the count. *)
Definition float_mean (xs : list float) : float :=
  (foldl PrimFloat.add 0%float xs / of_nat (length xs))%float.


(** Segments used in the examples. *)
Definition mkSegment (s e : float) (t : string) : TranscriptionSegment :=
  {| start := s; end_ := e; text := lit t; speaker := Some (lit "Speaker 1") |}.

Definition providerSegment (s e : float) (t : string) : ProviderSegment :=
  {| seg_start := Some s; seg_end := Some e; seg_text := Some (lit t) |}.

Definition hello_world_again : list ProviderSegment :=
  [providerSegment 0 2 "Hello."; providerSegment 2 4 "World"; providerSegment 4 6 "Again?"].

(** The index of the first segment spoken by [s]. *)
Fixpoint first_appearance (s : jsstring) (segments : list TranscriptionSegment) : option nat :=
  match segments with
  | [] => None
  | segment :: rest =>
      if bool_decide (speaker segment = Some s) then Some 0
      else S <$> first_appearance s rest
  end.

(** *** The provider call *)

Definition typeError : Error :=
  {| name := lit "TypeError"; message := lit "Cannot read properties of null" |}.

(** [makeApiRequest]: through the forwarder when one is configured. *)
Definition makeApiRequest (env : Env) (target method_ : jsstring) (authorization : option jsstring)
  : M Response :=
  let proxyUrl := or_undefined (VITE_PROXY_SERVER_URL (config env)) in
  let proxyToken := or_undefined (VITE_PROXY_SERVER_ACCESS_TOKEN (config env)) in
  if negb (bool_decide (proxyUrl = lit "undefined")) then
    fetch env {| url := proxyUrl; method := lit "POST";
                 bearer := Some (Bearer (Some proxyToken));
                 forwarded := Some (target, method_) |}
  else
    fetch env {| url := target; method := method_; bearer := authorization;
                 forwarded := None |}.

(** The request that [makeApiRequest] hands to [fetch]. *)
Definition issued (env : Env) (target method_ : jsstring) (authorization : option jsstring)
  : Request :=
  if negb (bool_decide (or_undefined (VITE_PROXY_SERVER_URL (config env)) = lit "undefined"))
  then {| url := or_undefined (VITE_PROXY_SERVER_URL (config env)); method := lit "POST";
          bearer := Some (Bearer (Some (or_undefined
                                          (VITE_PROXY_SERVER_ACCESS_TOKEN (config env)))));
          forwarded := Some (target, method_) |}
  else {| url := target; method := method_; bearer := authorization; forwarded := None |}.


(** [errorData.error?.message] after
    [await response.json().catch(() => ({}))]. *)
Definition error_message_of (response : Response) : Result (option jsstring) :=
  match json response with
  | Err _ => Ok None
  | Ok PNull => Err typeError
  | Ok (PError m) => Ok m
  | Ok _ => Ok None
  end.

(** The reads [data.segments], [data.text] and [data.language]. *)
Definition read_transcription (data : Payload)
  : Result (option (list ProviderSegment) * option jsstring * option jsstring) :=
  match data with
  | PNull => Err typeError
  | PTranscription text_ segments_ language_ => Ok (segments_, text_, language_)
  | _ => Ok (None, None, None)
  end.

Definition missing_key : Error :=
  newError (lit "OpenAI API key not configured. Please add VITE_OPENAI_API_KEY to your .env file.").

Definition transcribeAudio (env : Env) (audioBlob : Blob) (filename : jsstring)
  : M TranscriptionResult :=
  emit (EvCall OpTranscribeAudio);;
  if negb (present (VITE_OPENAI_API_KEY (config env))) then throw missing_key
  else
    try_catch
      (let* response :=
         makeApiRequest env (lit "https://api.openai.com/v1/audio/transcriptions")
           (lit "POST") (Some (Bearer (VITE_OPENAI_API_KEY (config env)))) in
       if negb (ok response) then
         let* detail := lift (error_message_of response) in
         throw (newError (lit "Transcription failed: "
                          ++ string_or detail (statusText response)))
       else
         let* data := lift (json response) in
         let* (segments_, text_, language_) := lift (read_transcription data) in
         let processedSegments :=
           processSegments (match segments_ with Some l => l | None => [] end) in
         let speakers_ := identifySpeakers processedSegments in
         ret {| result_text := string_or text_ [];
                segments := processedSegments;
                speakers := speakers_;
                language := string_or language_ (lit "en");
                confidence := calculateAverageConfidence processedSegments |})
      (fun error =>
         throw (newError (lit "Failed to transcribe audio: " ++ message error))).

End TranscriptionService.

(** ** summaryService: interpreting the provider's answer *)

Module SummaryService.

Definition positive : jsstring := lit "positive".
Definition negative : jsstring := lit "negative".
Definition neutral : jsstring := lit "neutral".
Definition mixed : jsstring := lit "mixed".

Definition validSentiments : list jsstring := [positive; negative; neutral; mixed].

(** [validSentiments.includes(sentiment) ? sentiment : 'neutral']:
    [Array.prototype.includes] compares with SameValueZero, so only a
    string value can be found. *)
Definition validateSentiment (sentiment : option JSValue) : jsstring :=
  match sentiment with
  | Some (JStr s) => if bool_decide (s ∈ validSentiments) then s else neutral
  | _ => neutral
  end.

(** [Array.isArray(v) ? v : d]. *)
Definition array_or (v : option JSValue) (d : list JSValue) : list JSValue :=
  match v with
  | Some (JArr items) => items
  | _ => d
  end.

(** [v || d]. *)
Definition value_or (v : option JSValue) (d : JSValue) : JSValue :=
  match v with
  | Some x => if truthy v then x else d
  | None => d
  end.

Definition strings (l : list jsstring) : list JSValue := map JStr l.

Inductive Section_ := NoSection | InSummary | InKeypoints | InTopics | InSentiment | InActions.

(** The variables of the loop in [parseTextResponse]. *)
Record TextState := {
  st_summary : jsstring;
  st_keyPoints : list jsstring;
  st_topics : list jsstring;
  st_sentiment : jsstring;
  st_actionItems : list jsstring;
  st_currentSection : Section_
}.

Definition set_section (st : TextState) (sec : Section_) : TextState :=
  {| st_summary := st_summary st; st_keyPoints := st_keyPoints st;
     st_topics := st_topics st; st_sentiment := st_sentiment st;
     st_actionItems := st_actionItems st; st_currentSection := sec |}.

Definition is_bullet_line (trimmed : jsstring) : bool :=
  startsWith trimmed (lit "-") || startsWith trimmed [bullet].

Section Parsing.

Context (rt : Runtime).

(** One iteration of the loop over the non-blank lines. *)
Definition text_step (st : TextState) (line : jsstring) : TextState :=
  let trimmed := trim line in
  let lower := toLowerCase rt trimmed in
  if includes lower (lit "summary") then set_section st InSummary
  else if includes lower (lit "key points") || includes lower (lit "takeaways")
  then set_section st InKeypoints
  else if includes lower (lit "topics") then set_section st InTopics
  else if includes lower (lit "sentiment") then set_section st InSentiment
  else if includes lower (lit "action") then set_section st InActions
  else
    match st_currentSection st with
    | InSummary =>
        if negb (is_bullet_line trimmed) then
          {| st_summary :=
               st_summary st
               ++ (if truthy_string (st_summary st) then lit " " else []) ++ trimmed;
             st_keyPoints := st_keyPoints st; st_topics := st_topics st;
             st_sentiment := st_sentiment st; st_actionItems := st_actionItems st;
             st_currentSection := InSummary |}
        else st
    | InKeypoints =>
        if is_bullet_line trimmed then
          {| st_summary := st_summary st;
             st_keyPoints := st_keyPoints st ++ [strip_bullet trimmed];
             st_topics := st_topics st;
             st_sentiment := st_sentiment st; st_actionItems := st_actionItems st;
             st_currentSection := InKeypoints |}
        else st
    | InTopics =>
        if is_bullet_line trimmed then
          {| st_summary := st_summary st; st_keyPoints := st_keyPoints st;
             st_topics := st_topics st ++ [strip_bullet trimmed];
             st_sentiment := st_sentiment st; st_actionItems := st_actionItems st;
             st_currentSection := InTopics |}
        else st
    | InActions =>
        if is_bullet_line trimmed then
          {| st_summary := st_summary st; st_keyPoints := st_keyPoints st;
             st_topics := st_topics st; st_sentiment := st_sentiment st;
             st_actionItems := st_actionItems st ++ [strip_bullet trimmed];
             st_currentSection := InActions |}
        else st
    | InSentiment =>
        match match_alternatives validSentiments lower with
        | Some word =>
            {| st_summary := st_summary st; st_keyPoints := st_keyPoints st;
               st_topics := st_topics st; st_sentiment := word;
               st_actionItems := st_actionItems st;
               st_currentSection := InSentiment |}
        | None => st
        end
    | NoSection => st
    end.

Definition initial_state : TextState :=
  {| st_summary := []; st_keyPoints := []; st_topics := [];
     st_sentiment := neutral; st_actionItems := [];
     st_currentSection := NoSection |}.

Definition parseTextResponse (content : jsstring) (speakers : list jsstring) : SummaryResult :=
  let lines := List.filter (fun line => truthy_string (trim line)) (split 10 content) in
  let st := foldl text_step initial_state lines in
  {| summary :=
       JStr (if truthy_string (st_summary st) then st_summary st
             else lit "Summary could not be generated.");
     keyPoints :=
       match st_keyPoints st with
       | [] => [JStr (lit "Key points could not be extracted.")]
       | kp => strings kp
       end;
     topics :=
       match st_topics st with
       | [] => [JStr (lit "Topics could not be identified.")]
       | tp => strings tp
       end;
     sentiment := st_sentiment st;
     actionItems := strings (st_actionItems st);
     participants := strings speakers |}.

(** The body of the [try] block of [parseSummaryResponse]: [Ok None] when
    the block falls through because no brace block was found.  The first
    property read throws when [parsed] is [null]; once it has succeeded the
    later reads cannot throw. *)
Definition parse_json_block (content : jsstring) (speakers : list jsstring)
  : Result (option SummaryResult) :=
  match match_braces content with
  | None => Ok None
  | Some jsonMatch =>
      match JSON_parse rt jsonMatch with
      | Err e => Err e
      | Ok parsed =>
          match get parsed (lit "summary") with
          | Err e => Err e
          | Ok _ =>
              let field k := match get parsed (lit k) with Ok v => v | Err _ => None end in
              Ok (Some
                {| summary := value_or (field "summary"%string)
                                (JStr (lit "Summary could not be generated."));
                   keyPoints := array_or (field "keyPoints"%string) [];
                   topics := array_or (field "topics"%string) [];
                   sentiment := validateSentiment (field "sentiment"%string);
                   actionItems := array_or (field "actionItems"%string) [];
                   participants := array_or (field "participants"%string) (strings speakers) |})
          end
      end
  end.

(** [try { ... } catch (error) { console.warn(...) }] followed by the
    text fallback. *)
Definition parseSummaryResponse (content : jsstring) (speakers : list jsstring)
  : Result SummaryResult :=
  match parse_json_block content speakers with
  | Ok (Some result) => Ok result
  | Ok None => Ok (parseTextResponse content speakers)
  | Err _ => Ok (parseTextResponse content speakers)
  end.

End Parsing.

(** The result of the JSON path, field by field. *)
Definition of_object (fields : list (jsstring * JSValue)) (speakers_ : list jsstring)
  : SummaryResult :=
  {| summary := value_or (lookup_field (lit "summary") fields)
                  (JStr (lit "Summary could not be generated."));
     keyPoints := array_or (lookup_field (lit "keyPoints") fields) [];
     topics := array_or (lookup_field (lit "topics") fields) [];
     sentiment := validateSentiment (lookup_field (lit "sentiment") fields);
     actionItems := array_or (lookup_field (lit "actionItems") fields) [];
     participants := array_or (lookup_field (lit "participants") fields)
                       (strings speakers_) |}.

(** *** A JSON reader for running examples

    It reads the fragment of JSON without string escapes, fractions and
    exponents, and rejects every other input.  Later members of an object
    shadow earlier ones with the same key, as in [JSON.parse]. *)

Fixpoint skip_ws (s : jsstring) : jsstring :=
  match s with
  | c :: r =>
      if ((c =? 32) || (c =? 9) || (c =? 10) || (c =? 13))%N then skip_ws r else s
  | [] => []
  end.

(** The characters of a string literal after its opening quote. *)
Fixpoint read_string (s : jsstring) : option (jsstring * jsstring) :=
  match s with
  | [] => None
  | c :: r =>
      if (c =? 34)%N then Some ([], r)
      else if ((c =? 92) || (c <? 32))%N then None
      else match read_string r with
           | Some (t, rest) => Some (c :: t, rest)
           | None => None
           end
  end.

Definition digits_value (ds : jsstring) : Z :=
  foldl (fun acc d => (10 * acc + Z.of_N (d - 48))%Z) 0%Z ds.

Definition read_int (s : jsstring) : option (float * jsstring) :=
  let '(neg, body) := match s with
                      | 45%N :: r => (true, r)
                      | _ => (false, s)
                      end in
  let ds := take_while isDigit body in
  match ds with
  | [] => None
  | d :: more =>
      if (d =? 48)%N && truthy_string more then None
      else if 15 <? length ds then None
      else
        let rest := drop (length ds) body in
        match rest with
        | c :: _ => if ((c =? 46) || (c =? 101) || (c =? 69))%N then None
                    else Some (if neg then (- of_Z (digits_value ds))%float
                               else of_Z (digits_value ds), rest)
        | [] => Some (if neg then (- of_Z (digits_value ds))%float
                      else of_Z (digits_value ds), rest)
        end
  end.

Fixpoint read_value (fuel : nat) (s : jsstring) : option (JSValue * jsstring) :=
  match fuel with
  | O => None
  | S fuel' =>
      match skip_ws s with
      | 110%N :: 117%N :: 108%N :: 108%N :: r => Some (JNull, r)
      | 116%N :: 114%N :: 117%N :: 101%N :: r => Some (JBool true, r)
      | 102%N :: 97%N :: 108%N :: 115%N :: 101%N :: r => Some (JBool false, r)
      | 34%N :: r =>
          match read_string r with
          | Some (t, rest) => Some (JStr t, rest)
          | None => None
          end
      | 91%N :: r =>
          match skip_ws r with
          | 93%N :: rest => Some (JArr [], rest)
          | r' =>
              match read_elements fuel' r' with
              | Some (vs, rest) => Some (JArr vs, rest)
              | None => None
              end
          end
      | 123%N :: r =>
          match skip_ws r with
          | 125%N :: rest => Some (JObj [], rest)
          | r' =>
              match read_members fuel' [] r' with
              | Some (kvs, rest) => Some (JObj kvs, rest)
              | None => None
              end
          end
      | other =>
          match read_int other with
          | Some (x, rest) => Some (JNum x, rest)
          | None => None
          end
      end
  end
with read_elements (fuel : nat) (s : jsstring) : option (list JSValue * jsstring) :=
  match fuel with
  | O => None
  | S fuel' =>
      match read_value fuel' s with
      | Some (v, r) =>
          match skip_ws r with
          | 44%N :: r' =>
              match read_elements fuel' r' with
              | Some (vs, rest) => Some (v :: vs, rest)
              | None => None
              end
          | 93%N :: rest => Some ([v], rest)
          | _ => None
          end
      | None => None
      end
  end
with read_members (fuel : nat) (acc : list (jsstring * JSValue)) (s : jsstring)
  : option (list (jsstring * JSValue) * jsstring) :=
  match fuel with
  | O => None
  | S fuel' =>
      match skip_ws s with
      | 34%N :: r =>
          match read_string r with
          | Some (k, r1) =>
              match skip_ws r1 with
              | 58%N :: r2 =>
                  match read_value fuel' r2 with
                  | Some (v, r3) =>
                      match skip_ws r3 with
                      | 44%N :: r4 => read_members fuel' ((k, v) :: acc) r4
                      | 125%N :: rest => Some ((k, v) :: acc, rest)
                      | _ => None
                      end
                  | None => None
                  end
              | _ => None
              end
          | None => None
          end
      | _ => None
      end
  end.

Definition syntaxError : Error :=
  {| name := lit "SyntaxError"; message := lit "Unexpected token in JSON" |}.

Definition JSON_parse_lite (s : jsstring) : Result JSValue :=
  match read_value (2 * length s + 2) s with
  | Some (v, rest) => match skip_ws rest with [] => Ok v | _ => Err syntaxError end
  | None => Err syntaxError
  end.

Definition sample_runtime : Runtime :=
  {| toLowerCase := ascii_toLowerCase; JSON_parse := JSON_parse_lite |}.

(** A string literal of a JSON text: [s] between double quotes. *)
Definition quoted (s : string) : jsstring := 34%N :: lit s ++ [34%N].

(** The document [{"keyPoints":7,"sentiment":"angry"}] wrapped in prose. *)
Definition sample_answer : jsstring :=
  lit "Here you go: {" ++ quoted "keyPoints" ++ lit ":7," ++ quoted "sentiment"
  ++ lit ":" ++ quoted "angry" ++ lit "} Bye".

(** *** The provider call *)

(** [makeApiRequest]: through the forwarder when one is configured. *)
Definition makeApiRequest (env : Env) (target method_ : jsstring) (authorization : option jsstring)
  : M Response :=
  let proxyUrl := or_undefined (VITE_PROXY_SERVER_URL (config env)) in
  let proxyToken := or_undefined (VITE_PROXY_SERVER_ACCESS_TOKEN (config env)) in
  if negb (bool_decide (proxyUrl = lit "undefined")) then
    fetch env {| url := proxyUrl; method := lit "POST";
                 bearer := Some (Bearer (Some proxyToken));
                 forwarded := Some (target, method_) |}
  else
    fetch env {| url := target; method := method_; bearer := authorization;
                 forwarded := None |}.

(** [data.choices?.[0]?.message?.content]. *)
Definition read_content (data : Payload) : Result (option jsstring) :=
  match data with
  | PNull => Err TranscriptionService.typeError
  | PCompletion content => Ok content
  | _ => Ok None
  end.

Definition no_content : Error := newError (lit "No summary content received from API").



(** The prompt and the request body built before the call are not part of
    what the oracle sees. *)
Definition generateSummary (env : Env) (transcript : jsstring) (speakers_ : list jsstring)
  : M SummaryResult :=
  emit (EvCall OpGenerateSummary);;
  if negb (present (VITE_OPENAI_API_KEY (config env)))
  then throw TranscriptionService.missing_key
  else
    try_catch
      (let* response :=
         makeApiRequest env (lit "https://api.openai.com/v1/chat/completions")
           (lit "POST") (Some (Bearer (VITE_OPENAI_API_KEY (config env)))) in
       if negb (ok response) then
         let* detail := lift (TranscriptionService.error_message_of response) in
         throw (newError (lit "Summary generation failed: "
                          ++ string_or detail (statusText response)))
       else
         let* data := lift (json response) in
         let* content := lift (read_content data) in
         if negb (present content) then throw no_content
         else
           lift (parseSummaryResponse (runtime env)
                   (match content with Some c => c | None => [] end) speakers_))
      (fun error =>
         throw (newError (lit "Failed to generate summary: " ++ message error))).

End SummaryService.

(** ** audioService: the WAV encoder *)

Module AudioService.

(** *** DataView over a byte array

    A write outside the array throws a RangeError ([None]). *)

(** The [width] low-order bytes of [v], least significant first. *)
Fixpoint little_endian (width : nat) (v : Z) : list Z :=
  match width with
  | O => []
  | S w => (v mod 256)%Z :: little_endian w (v / 256)%Z
  end.

Definition write (offset : nat) (bytes : list Z) (view : list Z) : option (list Z) :=
  if offset + length bytes <=? length view
  then Some (list_inserts offset bytes view)
  else None.

Definition setUint8 (offset : nat) (v : Z) := write offset (little_endian 1 v).
Definition setUint16 (offset : nat) (v : Z) := write offset (little_endian 2 v).
Definition setUint32 (offset : nat) (v : Z) := write offset (little_endian 4 v).

(** [view.setInt16(offset, x, true)] for a number [x]: NaN and the
    infinities convert to 0, other values are truncated and wrapped. *)
Definition integer_of (x : float) : Z :=
  match truncate x with
  | Some k => k
  | None => 0%Z
  end.

Definition setInt16 (offset : nat) (x : float) := write offset (little_endian 2 (integer_of x)).


(** The closure [writeString] of [audioBufferToWav]. *)
Fixpoint writeString (offset : nat) (s : jsstring) (view : list Z) : option (list Z) :=
  match s with
  | [] => Some view
  | c :: r => setUint8 offset (Z.of_N c) view ≫= writeString (S offset) r
  end.

(** The value stored for one sample. *)
Definition clamp (x : float) : float := Math_max (-1) (Math_min 1 x).

Definition scaled (sample : float) : float :=
  if PrimFloat.ltb sample 0 then (sample * 32768)%float else (sample * 32767)%float.

(** The body of the inner loop: the sample of one channel of frame [i]. *)
Definition write_sample (buffer : AudioBuffer.t) (i : nat) (st : option (nat * list Z))
    (channel : nat) : option (nat * list Z) :=
  '(offset, view) ← st;
  let sample := clamp (AudioBuffer.getChannelData buffer channel i) in
  view' ← setInt16 offset (scaled sample) view;
  Some (offset + 2, view').

(** The inner loop: one frame, over its channels. *)
Definition write_frame (buffer : AudioBuffer.t) (i : nat) (st : option (nat * list Z))
  : option (nat * list Z) :=
  foldl (write_sample buffer i) st (seq 0 (AudioBuffer.numberOfChannels buffer)).

Definition audioBufferToWav (buffer : AudioBuffer.t) : option (list Z) :=
  let length := AudioBuffer.length buffer in
  let numberOfChannels := AudioBuffer.numberOfChannels buffer in
  let sampleRate := AudioBuffer.sampleRate buffer in
  let dataBytes := Z.of_nat (length * numberOfChannels * 2) in
  let view := replicate (44 + length * numberOfChannels * 2) 0%Z in
  view ← writeString 0 (lit "RIFF") view;
  view ← setUint32 4 (36 + dataBytes) view;
  view ← writeString 8 (lit "WAVE") view;
  view ← writeString 12 (lit "fmt ") view;
  view ← setUint32 16 16 view;
  view ← setUint16 20 1 view;
  view ← setUint16 22 (Z.of_nat numberOfChannels) view;
  view ← setUint32 24 sampleRate view;
  view ← setUint32 28 (sampleRate * Z.of_nat numberOfChannels * 2) view;
  view ← setUint16 32 (Z.of_nat numberOfChannels * 2) view;
  view ← setUint16 34 16 view;
  view ← writeString 36 (lit "data") view;
  view ← setUint32 40 dataBytes view;
  '(_, view) ← foldl (fun st i => write_frame buffer i st) (Some (44, view)) (seq 0 length);
  Some view.

(** *** Reading a container back *)

Fixpoint from_little_endian (bytes : list Z) : Z :=
  match bytes with
  | [] => 0%Z
  | b :: r => (b + 256 * from_little_endian r)%Z
  end.

Definition field (offset width : nat) (bytes : list Z) : Z :=
  from_little_endian (take width (drop offset bytes)).



(** The signed 16-bit integer that [setInt16] stores for [x]. *)
Definition toInt16 (x : float) : Z :=
  let u := (integer_of x mod 65536)%Z in
  if (32768 <=? u)%Z then (u - 65536)%Z else u.



(** *** The container in closed form *)





(** Buffers used in the examples. *)
Definition constant_buffer (n c : nat) (rate : Z) (x : float) : AudioBuffer.t :=
  {| AudioBuffer.length := n; AudioBuffer.numberOfChannels := c;
     AudioBuffer.sampleRate := rate;
     AudioBuffer.getChannelData := fun _ _ => x |}.

Definition ramp : AudioBuffer.t :=
  {| AudioBuffer.length := 3; AudioBuffer.numberOfChannels := 2;
     AudioBuffer.sampleRate := 8000;
     AudioBuffer.getChannelData := fun channel i =>
       match channel, i with
       | 0, 0 => 1%float | 0, 1 => (-1)%float | 0, 2 => 0.5%float
       | 1, 0 => 2.5%float | 1, 1 => (-7)%float | _, _ => PrimFloat.nan
       end |}.

(** *** The operations of the service *)

Definition rangeError : Error :=
  {| name := lit "RangeError"; message := lit "Offset is outside the bounds of the DataView" |}.

Definition convertToWav (env : Env) (audioBlob : Blob) : M Blob :=
  emit (EvCall OpConvertToWav);;
  let* audioBuffer := decodeAudioData env (blob_bytes audioBlob) in
  let* wavBuffer := lift (match audioBufferToWav audioBuffer with
                          | Some bytes => Ok bytes
                          | None => Err rangeError
                          end) in
  ret {| blob_bytes := wavBuffer; blob_type := lit "audio/wav" |}.

Definition extractAudioFromUrl (env : Env) (address : jsstring) : M Blob :=
  emit (EvCall OpExtractAudioFromUrl);;
  try_catch
    (let* response := fetch env {| url := address; method := lit "GET";
                                   bearer := None; forwarded := None |} in
     if negb (ok response)
     then throw (newError (lit "Failed to fetch audio: " ++ statusText response))
     else lift (blob response))
    (fun error =>
       throw (newError (lit "Failed to extract audio from URL: " ++ Error_toString error))).

End AudioService.

(** ** xSpaceService: the orchestrator *)

Module XSpaceService.

Import XSpaceMetadata.

(** The patterns of [extractSpaceId], each a literal followed by a
    captured run of one or more characters of a class. *)
Definition patterns : list (jsstring * (N -> bool)) :=
  [ (lit "/spaces/", isAlnum);
    (lit "spaces.twitter.com/", isAlnum);
    (lit "/status/", isDigit);
    (lit "/i/spaces/", isAlnum) ].

Fixpoint first_capture (ps : list (jsstring * (N -> bool))) (s : jsstring) : option jsstring :=
  match ps with
  | [] => None
  | (prefix, cls) :: rest =>
      match match_capture prefix cls s with
      | Some g => if truthy_string g then Some g else first_capture rest s
      | None => first_capture rest s
      end
  end.

Definition extractSpaceId (address : jsstring) : Result jsstring :=
  if negb (truthy_string address) then Err (newError (lit "Invalid URL provided"))
  else match first_capture patterns address with
       | Some g => Ok g
       | None => Err (newError (lit "Invalid X Space URL format"))
       end.

(** [makeApiRequest] of this service: a failed call yields [null]. *)
Definition makeApiRequest (env : Env) (target method_ : jsstring) (authorization : option jsstring)
  : M (option Response) :=
  let proxyUrl := or_undefined (VITE_PROXY_SERVER_URL (config env)) in
  let proxyToken := or_undefined (VITE_PROXY_SERVER_ACCESS_TOKEN (config env)) in
  try_catch
    (if negb (bool_decide (proxyUrl = lit "undefined"))
        && negb (bool_decide (proxyToken = lit "undefined"))
     then
       let* response := fetch env {| url := proxyUrl; method := lit "POST";
                                     bearer := Some (Bearer (Some proxyToken));
                                     forwarded := Some (target, method_) |} in
       ret (Some response)
     else
       let* response := fetch env {| url := target; method := method_;
                                     bearer := authorization; forwarded := None |} in
       ret (Some response))
    (fun _ => ret None).

(** The request that this [makeApiRequest] hands to [fetch]. *)
Definition issued (env : Env) (target method_ : jsstring) (authorization : option jsstring)
  : Request :=
  if negb (bool_decide (or_undefined (VITE_PROXY_SERVER_URL (config env)) = lit "undefined"))
     && negb (bool_decide (or_undefined (VITE_PROXY_SERVER_ACCESS_TOKEN (config env))
                           = lit "undefined"))
  then {| url := or_undefined (VITE_PROXY_SERVER_URL (config env)); method := lit "POST";
          bearer := Some (Bearer (Some (or_undefined
                                          (VITE_PROXY_SERVER_ACCESS_TOKEN (config env)))));
          forwarded := Some (target, method_) |}
  else {| url := target; method := method_; bearer := authorization; forwarded := None |}.

(** [token && token !== 'undefined' && token.length > 10]. *)
Definition token_configured (env : Env) : bool :=
  match VITE_TWITTER_BEARER_TOKEN (config env) with
  | Some token =>
      truthy_string token && negb (bool_decide (token = lit "undefined"))
      && (10 <? length token)
  | None => false
  end.

Definition basicMetadata (spaceId : jsstring) : XSpaceMetadata.t :=
  {| id := spaceId; title := lit "X Space Recording"; hostUsername := lit "Unknown";
     participantCount := 0%float; isLive := false;
     scheduledStart := None; actualStart := None; estimatedEnd := None;
     state := lit "ended" |}.

(** The record built from a successful lookup. *)
Definition lookedUpMetadata (spaceId : jsstring) (space : SpaceObject) (host : option jsstring)
  : XSpaceMetadata.t :=
  {| id := string_or (space_id space) spaceId;
     title := string_or (space_title space) (lit "X Space Recording");
     hostUsername := string_or host (lit "Unknown");
     participantCount := number_or_zero (participant_count space);
     isLive := bool_decide (space_state space = Some (lit "live"));
     scheduledStart := scheduled_start space;
     actualStart := started_at space;
     estimatedEnd := ended_at space;
     state := string_or (space_state space) (lit "ended") |}.

Definition lookup_url (spaceId : jsstring) : jsstring :=
  lit "https://api.twitter.com/2/spaces/" ++ spaceId
  ++ lit "?expansions=host_ids&user.fields=username,name&space.fields=participant_count,speaker_ids,is_ticketed,state,scheduled_start,started_at,ended_at,topic_ids,title".

Definition extractSpaceMetadata (env : Env) (spaceUrl : jsstring) : M XSpaceMetadata.t :=
  emit (EvCall OpExtractSpaceMetadata);;
  try_catch
    (let* spaceId := lift (extractSpaceId spaceUrl) in
     if negb (truthy_string spaceId)
     then throw (newError (lit "Invalid X Space URL format"))
     else if token_configured env then
       try_catch
         (let* response :=
            makeApiRequest env (lookup_url spaceId) (lit "GET")
              (Some (Bearer (VITE_TWITTER_BEARER_TOKEN (config env)))) in
          match response with
          | Some r =>
              if ok r then
                let* data := lift (json r) in
                match data with
                | PSpace (Some space) host => ret (lookedUpMetadata spaceId space host)
                | _ => ret (basicMetadata spaceId)
                end
              else ret (basicMetadata spaceId)
          | None => ret (basicMetadata spaceId)
          end)
         (fun apiError => ret (basicMetadata spaceId))
     else ret (basicMetadata spaceId))
    (fun error => ret (basicMetadata (lit "unknown"))).

(** The request of the lookup in [extractSpaceMetadata]. *)
Definition lookup_request (env : Env) (spaceId : jsstring) : Request :=
  issued env (lookup_url spaceId) (lit "GET")
    (Some (Bearer (VITE_TWITTER_BEARER_TOKEN (config env)))).

(** The lookup gave nothing to build the metadata from. *)
Definition lookup_failed (answer : Result Response) : Prop :=
  match answer with
  | Err _ => True
  | Ok response =>
      ok response = false
      ∨ (∃ e, json response = Err e)
      ∨ (∃ data, json response = Ok data ∧ ∀ space host, data ≠ PSpace (Some space) host)
  end.

Definition playlist (region spaceId : jsstring) : jsstring :=
  lit "https://prod-fastly-" ++ region ++ lit ".video.pscp.tv/Transcoding/v1/hls/"
  ++ spaceId ++ lit "/transcode/" ++ region ++ lit "/periscope-replay-direct-prod-"
  ++ region ++ lit "-public/audio-space/master_playlist.m3u8".

Definition possibleUrls (spaceId : jsstring) : list jsstring :=
  [ playlist (lit "us-west-1") spaceId;
    playlist (lit "us-east-1") spaceId;
    playlist (lit "eu-west-1") spaceId ].

(** The loop over [possibleUrls]. *)
Fixpoint probe (env : Env) (candidates : list jsstring) : M (option jsstring) :=
  match candidates with
  | [] => ret None
  | candidate :: rest =>
      let* response := makeApiRequest env candidate (lit "HEAD") None in
      match response with
      | Some r => if ok r then ret (Some candidate) else probe env rest
      | None => probe env rest
      end
  end.

Definition no_stream : Error :=
  newError (lit "No accessible audio streams found for this X Space").

Definition extractAudioUrl (env : Env) (spaceUrl : jsstring) : M jsstring :=
  emit (EvCall OpExtractAudioUrl);;
  let* spaceId := lift (extractSpaceId spaceUrl) in
  let* direct := probe env (possibleUrls spaceId) in
  match direct with
  | Some found => ret found
  | None =>
      let* viaApi :=
        if token_configured env then
          try_catch
            (let* response :=
               makeApiRequest env
                 (lit "https://api.twitter.com/2/spaces/" ++ spaceId ++ lit "/audio_stream")
                 (lit "GET") (Some (Bearer (VITE_TWITTER_BEARER_TOKEN (config env)))) in
             match response with
             | Some r =>
                 if ok r then
                   let* data := lift (json r) in
                   match data with
                   | PAudioStream (Some audio_url) =>
                       if truthy_string audio_url then ret (Some audio_url) else ret None
                   | _ => ret None
                   end
                 else ret None
             | None => ret None
             end)
            (fun _ => ret None)
        else ret None in
      match viaApi with
      | Some found => ret found
      | None => throw no_stream
      end
  end.

Definition unavailable : Error :=
  newError (lit "Unable to access X Space audio. The space may be private, expired, or audio may not be available for download.").

(** Step 2 of [processXSpace]: the [try] block that obtains the audio. *)
Definition obtainAudio (env : Env) (spaceUrl : jsstring) : M (jsstring * Blob) :=
  let* audioUrl_ := extractAudioUrl env spaceUrl in
  let* audioBlob := AudioService.extractAudioFromUrl env audioUrl_ in
  ret (audioUrl_, audioBlob).

Definition processXSpace (env : Env) (spaceUrl : jsstring) : M XSpaceProcessingResult :=
  let* metadata_ := extractSpaceMetadata env spaceUrl in
  let* (audioUrl_, audioBlob) :=
    try_catch (obtainAudio env spaceUrl) (fun _ => throw unavailable) in
  let* processedAudio := AudioService.convertToWav env audioBlob in
  let* transcription_ :=
    TranscriptionService.transcribeAudio env processedAudio (title metadata_ ++ lit ".wav") in
  let* summary' :=
    SummaryService.generateSummary env (result_text transcription_) (speakers transcription_) in
  ret {| metadata := metadata_; transcription := transcription_;
         summary_ := summary'; audioUrl := Some audioUrl_ |}.

End XSpaceService.

(** ** Environments used in the examples *)

Module Examples.

Import TranscriptionService.

Definition no_config : Config :=
  {| VITE_OPENAI_API_KEY := None; VITE_PROXY_SERVER_URL := None;
     VITE_PROXY_SERVER_ACCESS_TOKEN := None; VITE_TWITTER_BEARER_TOKEN := None |}.

Definition with_key : Config :=
  {| VITE_OPENAI_API_KEY := Some (lit "sk-test"); VITE_PROXY_SERVER_URL := None;
     VITE_PROXY_SERVER_ACCESS_TOKEN := None; VITE_TWITTER_BEARER_TOKEN := None |}.

Definition failed_to_fetch : Error :=
  {| name := lit "TypeError"; message := lit "Failed to fetch" |}.

Definition undecodable : Error :=
  {| name := lit "EncodingError"; message := lit "Unable to decode audio data" |}.

(** No credential, no network, no decoder. *)
Definition offline : Env :=
  {| config := no_config; runtime := SummaryService.sample_runtime;
     network := fun _ _ => Err failed_to_fetch;
     decoder := fun _ _ => Err undecodable |}.

Definition plain (status : bool) (body : Result Payload) : Response :=
  {| ok := status; statusText := if status then lit "OK" else lit "Not Found";
     json := body;
     blob := Ok {| blob_bytes := [1; 2; 3]%Z; blob_type := lit "audio/mpeg" |} |}.

Definition seven_segments : list ProviderSegment :=
  replicate 6 {| seg_start := Some 0%float; seg_end := Some 4%float;
                 seg_text := Some (lit "Hello world.") |}
  ++ [ {| seg_start := None; seg_end := None; seg_text := None |} ].

(** A network on which every step of the pipeline succeeds: the first
    playlist exists, the transcription has seven segments, and the
    completion is [sample_answer]. *)
Definition answering (_ : list Event) (request : Request) : Result Response :=
  if includes (url request) (lit "/audio/transcriptions")
  then Ok (plain true (Ok (PTranscription (Some (lit "Hello world.")) (Some seven_segments)
                             (Some (lit "en")))))
  else if includes (url request) (lit "/chat/completions")
  then Ok (plain true (Ok (PCompletion (Some SummaryService.sample_answer))))
  else if includes (url request) (lit "us-west-1")
  then Ok (plain true (Err SummaryService.syntaxError))
  else Ok (plain false (Ok POther)).

Definition studio : Env :=
  {| config := with_key; runtime := SummaryService.sample_runtime;
     network := answering;
     decoder := fun _ _ => Ok AudioService.ramp |}.

(** The same with a decoder that rejects the audio. *)
Definition broken_decoder : Env :=
  {| config := with_key; runtime := SummaryService.sample_runtime;
     network := answering;
     decoder := fun _ _ => Err undecodable |}.

(** The same with a transcription provider that answers 404, and with a
    completion provider that answers 404. *)
Definition without (path : string) (t : list Event) (request : Request) : Result Response :=
  if includes (url request) (lit path) then Ok (plain false (Ok (PError None)))
  else answering t request.

Definition no_transcription : Env :=
  {| config := with_key; runtime := SummaryService.sample_runtime;
     network := without "/audio/transcriptions";
     decoder := fun _ _ => Ok AudioService.ramp |}.

Definition no_completion : Env :=
  {| config := with_key; runtime := SummaryService.sample_runtime;
     network := without "/chat/completions";
     decoder := fun _ _ => Ok AudioService.ramp |}.


Definition space_url : jsstring := lit "https://x.com/i/spaces/1vOxwdyYWZqKB".

End Examples.

(** ** Further built-ins: joining, padding and rendering numbers *)

Module Builtins.

(** [Array.prototype.join]. *)
Fixpoint join (sep : jsstring) (items : list jsstring) : jsstring :=
  match items with
  | [] => []
  | [x] => x
  | x :: rest => x ++ sep ++ join sep rest
  end.

(** [s.padStart(2, '0')]: a string of two or more code units is returned
    as it is. *)
Definition padStart2 (s : jsstring) : jsstring := replicate (2 - length s) 48%N ++ s.

(** Decimal digits of a non-negative integer given in binary. *)
Definition decimalN (n : N) : jsstring := uint_digits (N.to_uint n).

(** [Math.floor]: NaN, the infinities, the zeros and the numbers without a
    fractional part are returned as they are; the floor of any other number
    is below 2^53 in magnitude. *)
Definition Math_floor (x : float) : float :=
  match Prim2SF x with
  | S754_finite s m e =>
      if (0 <=? e)%Z then x
      else
        let z := Z.shiftl (if s then Z.neg m else Z.pos m) e in
        if (z <? 0)%Z then (- of_Z (- z))%float else of_Z z
  | _ => x
  end.

(** [Math.floor(x % d)] for a positive integer [d].  The remainder [x % d]
    has the sign of [x] and is computed without rounding: its magnitude is
    the whole part of [|x|] reduced modulo [d], plus the fractional part of
    [|x|], which is what the shift that gives the whole part drops from the
    mantissa.  A remainder of zero keeps the sign of [x]. *)
Definition floor_rem (x : float) (d : Z) : float :=
  match Prim2SF x with
  | S754_nan | S754_infinity _ => PrimFloat.nan
  | S754_zero _ => x
  | S754_finite s m e =>
      let whole := Z.shiftl (Z.pos m) e in
      let fraction := (Z.pos m - Z.shiftl whole (- e))%Z in
      let r := (whole mod d)%Z in
      if s then
        if (r =? 0)%Z && (fraction =? 0)%Z then (- 0)%float
        else (- of_Z (if (fraction =? 0)%Z then r else r + 1))%float
      else of_Z r
  end.

Section NumberToString.

(** [Number.prototype.toString] for the values that have a fractional part
    or reach 2^53.  Below 2^53 every integer is a number of its own and is
    written with all its digits; from there on the shortest digits that
    identify the number are written. *)
Context (toString_other : float -> jsstring).

(** [Number.prototype.toString]: a number [±m·2^e] is integral when the
    shift by [e] drops nothing from [m]. *)
Definition Number_toString (x : float) : jsstring :=
  match Prim2SF x with
  | S754_nan => lit "NaN"
  | S754_infinity s => if s then lit "-Infinity" else lit "Infinity"
  | S754_zero _ => lit "0"
  | S754_finite s m e =>
      let z := Z.shiftl (Z.pos m) e in
      if ((Z.shiftl z (- e) =? Z.pos m) && (z <? 2 ^ 53))%Z
      then (if s then lit "-" else []) ++ decimalN (Z.to_N z)
      else toString_other x
  end.

End NumberToString.

End Builtins.

(** ** transcriptionService: rendering the transcript *)

Module TranscriptRendering.

Import Builtins.

Section Rendering.

Context (toString_other : float -> jsstring).

Definition formatTimestamp (seconds : float) : jsstring :=
  let minutes := Math_floor (seconds / 60)%float in
  let secs := floor_rem seconds 60 in
  padStart2 (Number_toString toString_other minutes) ++ lit ":"
  ++ padStart2 (Number_toString toString_other secs).

(** The callback of [segments.map] in [formatTranscriptWithTimestamps]. *)
Definition formatSegment (segment : TranscriptionSegment) : jsstring :=
  let timestamp := formatTimestamp (start segment) in
  let speaker_ := string_or (speaker segment) (lit "Speaker") in
  lit "[" ++ timestamp ++ lit "] " ++ speaker_ ++ lit ": " ++ text segment.

Definition formatTranscriptWithTimestamps (segments : list TranscriptionSegment) : jsstring :=
  join [10; 10]%N (map formatSegment segments).

End Rendering.

(** The label that [processSegments] gives to the speaker of run [k]. *)
Definition label (k : nat) : jsstring := lit "Speaker " ++ decimal k.

(** Whether a segment carries a label that counts. *)
Definition labelled (segment : TranscriptionSegment) : bool :=
  match speaker segment with
  | Some s => truthy_string s
  | None => false
  end.

(** A timestamp of [z] whole seconds as minutes and seconds. *)
Definition clock (z : Z) : jsstring :=
  padStart2 (decimalN (Z.to_N (z / 60))) ++ lit ":" ++ padStart2 (decimalN (Z.to_N (z mod 60))).

(** [check] holds for the [fuel] integers from [z] on. *)
Fixpoint holds_from (check : Z -> bool) (fuel : nat) (z : Z) : bool :=
  match fuel with
  | O => true
  | S f => check z && holds_from check f (z + 1)%Z
  end.

(** The quotient and the remainder of a whole number of seconds. *)
Definition whole_seconds_check (z : Z) : bool :=
  PrimFloat.Leibniz.eqb (Math_floor (of_Z z / 60)) (of_Z (z / 60))
  && PrimFloat.Leibniz.eqb (floor_rem (of_Z z) 60) (of_Z (z mod 60)).

End TranscriptRendering.

(** ** summaryService: the prompt *)

Module SummaryPrompt.

Import Builtins.

(** A double quote and a line feed. *)
Definition q : jsstring := [34%N].
Definition nl : jsstring := [10%N].

(** The text of the template before [${transcript}]. *)
Definition opening : jsstring :=
  lit "Please analyze this X Space transcript and provide a comprehensive analysis in the following JSON format:" ++ nl
  ++ nl
  ++ lit "{" ++ nl
  ++ lit "  " ++ q ++ lit "summary" ++ q ++ lit ": " ++ q
     ++ lit "A detailed 2-3 paragraph summary of the main discussion" ++ q ++ lit "," ++ nl
  ++ lit "  " ++ q ++ lit "keyPoints" ++ q ++ lit ": [" ++ q
     ++ lit "List of 5-8 key points or takeaways" ++ q ++ lit "]," ++ nl
  ++ lit "  " ++ q ++ lit "topics" ++ q ++ lit ": [" ++ q
     ++ lit "Main topics discussed" ++ q ++ lit "]," ++ nl
  ++ lit "  " ++ q ++ lit "sentiment" ++ q ++ lit ": " ++ q
     ++ lit "overall sentiment (positive/negative/neutral/mixed)" ++ q ++ lit "," ++ nl
  ++ lit "  " ++ q ++ lit "actionItems" ++ q ++ lit ": [" ++ q
     ++ lit "Any action items or next steps mentioned" ++ q ++ lit "]," ++ nl
  ++ lit "  " ++ q ++ lit "participants" ++ q ++ lit ": [" ++ q
     ++ lit "Key participants and their roles if identifiable" ++ q ++ lit "]" ++ nl
  ++ lit "}" ++ nl
  ++ nl
  ++ lit "Transcript:" ++ nl.

(** The text of the template after the speakers. *)
Definition closing : jsstring :=
  nl ++ nl
  ++ lit "Please ensure your response is valid JSON and captures the essence of this X Space conversation.".

(** [speakers.length > 0 ? `\nIdentified Speakers: ${speakers.join(', ')}` : ''] *)
Definition speakers_line (speakers_ : list jsstring) : jsstring :=
  match speakers_ with
  | [] => []
  | _ :: _ => nl ++ lit "Identified Speakers: " ++ join (lit ", ") speakers_
  end.

Definition createSummaryPrompt (transcript : jsstring) (speakers_ : list jsstring) : jsstring :=
  opening ++ transcript ++ nl ++ nl ++ speakers_line speakers_ ++ closing.

End SummaryPrompt.

(** ** xSpaceService: the address check, and the earlier revision of
    [extractSpaceId] *)

Module XSpaceAddress.

Import XSpaceService.

Definition validateSpaceUrl (spaceUrl : jsstring) : M bool :=
  try_catch
    (let* spaceId := lift (extractSpaceId spaceUrl) in
     if negb (truthy_string spaceId) then ret false
     else ret true)
    (fun error => ret false).

(** The earlier revision of the service: three patterns, the first match
    decides, and the address is not tested for emptiness. *)
Definition earlier_patterns : list (jsstring * (N -> bool)) :=
  [ (lit "/spaces/", isAlnum);
    (lit "spaces.twitter.com/", isAlnum);
    (lit "/status/", isDigit) ].

Fixpoint first_match (ps : list (jsstring * (N -> bool))) (s : jsstring) : option jsstring :=
  match ps with
  | [] => None
  | (prefix, cls) :: rest =>
      match match_capture prefix cls s with
      | Some g => Some g
      | None => first_match rest s
      end
  end.

Definition earlier_extractSpaceId (address : jsstring) : Result jsstring :=
  match first_match earlier_patterns address with
  | Some g => Ok g
  | None => Err (newError (lit "Invalid X Space URL format"))
  end.

End XSpaceAddress.

(** ** UrlInput: the check of the form *)

Module UrlInput.

(** An optional literal [(lit)?]: in each pattern the text that follows
    begins with a character other than the first of [lit], so the literal
    is consumed whenever it is there. *)
Definition optional (p s : jsstring) : jsstring :=
  match strip_prefix p s with
  | Some rest => rest
  | None => s
  end.

(** [^https?:\/\/]. *)
Definition scheme (s : jsstring) : option jsstring :=
  rest ← strip_prefix (lit "http") s;
  strip_prefix (lit "://") (optional (lit "s") rest).

(** [^https?:\/\/(www\.)?host\/i\/spaces\/[a-zA-Z0-9]+] *)
Definition space_page (host : string) (s : jsstring) : bool :=
  match scheme s with
  | Some rest =>
      match strip_prefix (lit host ++ lit "/i/spaces/") (optional (lit "www.") rest) with
      | Some tail => truthy_string (take_while isAlnum tail)
      | None => false
      end
  | None => false
  end.

(** [^https?:\/\/spaces\.twitter\.com\/[a-zA-Z0-9]+] *)
Definition spaces_host (s : jsstring) : bool :=
  match scheme s with
  | Some rest =>
      match strip_prefix (lit "spaces.twitter.com/") rest with
      | Some tail => truthy_string (take_while isAlnum tail)
      | None => false
      end
  | None => false
  end.

(** [^https?:\/\/host\/[^\/]+\/status\/\d+]: the run [[^\/]+] ends at the
    first slash, where [/status/] has to follow. *)
Definition status_page (host : string) (s : jsstring) : bool :=
  match scheme s with
  | Some rest =>
      match strip_prefix (lit host ++ lit "/") rest with
      | Some tail =>
          let user := take_while (fun c => negb (c =? 47)%N) tail in
          truthy_string user
          && match strip_prefix (lit "/status/") (drop (length user) tail) with
             | Some digits => truthy_string (take_while isDigit digits)
             | None => false
             end
      | None => false
      end
  | None => false
  end.

(** [xSpacePatterns.some(pattern => pattern.test(inputUrl))]. *)
Definition validateXSpaceUrl (inputUrl : jsstring) : bool :=
  space_page "twitter.com" inputUrl
  || space_page "x.com" inputUrl
  || spaces_host inputUrl
  || status_page "twitter.com" inputUrl
  || status_page "x.com" inputUrl.

End UrlInput.

(** ** TranscriptionResult: the name of the downloaded file *)

Module Download.

(** [name.replace(/\.[^/.]+$/, '')]: the leftmost dot that is followed,
    up to the end, by one or more characters other than a slash and a dot;
    the name is cut there. *)
Fixpoint strip_extension (name : jsstring) : jsstring :=
  match name with
  | [] => []
  | c :: rest =>
      if (c =? 46)%N && truthy_string rest
         && forallb (fun x => negb ((x =? 47) || (x =? 46))%N) rest
      then []
      else c :: strip_extension rest
  end.

Inductive Format := txt | json_.

(** The [filename] computed by [handleDownload]. *)
Definition download_name (filename : jsstring) (format : Format) : jsstring :=
  match format with
  | txt => strip_extension filename ++ lit "_transcript.txt"
  | json_ => strip_extension filename ++ lit "_transcript.json"
  end.

End Download.

(* ===================================================================== *)
(** * Part II. Properties                                                 *)
(* ===================================================================== *)

(** ** Numbers *)

Module NumberFacts.






End NumberFacts.

(** ** Segment post-processing *)

Module TranscriptionFacts.

Import TranscriptionService.

Lemma processSegments_lookup (raw : list ProviderSegment) i :
  processSegments raw !! i = processSegment i <$> raw !! i.
Proof. unfold processSegments. apply list_lookup_imap. Qed.

Lemma processSegments_speaker (raw : list ProviderSegment) segment :
  segment ∈ processSegments raw →
  ∃ i, i < length raw ∧ speaker segment = Some (lit "Speaker " ++ decimal (i / 5 + 1)).
Proof.
  intros [i Hi]%list_elem_of_lookup.
  rewrite processSegments_lookup in Hi.
  destruct (raw !! i) as [r|] eqn:Hr; simplify_eq/=.
  exists i. split; [by eapply lookup_lt_Some|done].
Qed.

(** C3. The segment at index [i] is labelled "Speaker " followed by the
    decimal digits of [i / 5 + 1]; no segment is dropped or added; a
    sequence of at most five segments is labelled "Speaker 1" throughout. *)
Theorem speaker_label_by_index (raw : list ProviderSegment) :
  length (processSegments raw) = length raw
  ∧ (∀ i segment,
        processSegments raw !! i = Some segment →
        speaker segment = Some (lit "Speaker " ++ decimal (i / 5 + 1)))
  ∧ (length raw ≤ 5 →
     ∀ segment, segment ∈ processSegments raw → speaker segment = Some (lit "Speaker 1")).
Proof.
  split; [apply length_imap|split].
  - intros i segment Hi. rewrite processSegments_lookup in Hi.
    destruct (raw !! i); by simplify_eq/=.
  - intros Hlen segment (i & Hi & ->)%processSegments_speaker.
    rewrite Nat.div_small by lia. reflexivity.
Qed.

Lemma speaker_label_by_index_witness :
  length hello_world_again ≤ 5
  ∧ ∀ segment,
      segment ∈ processSegments hello_world_again →
      speaker segment = Some (lit "Speaker 1").
Proof.
  assert (Hlen : length hello_world_again ≤ 5) by (simpl; lia).
  split; [exact Hlen|].
  exact (proj2 (proj2 (speaker_label_by_index hello_world_again)) Hlen).
Defined.

(** The scenario of three segments, and the labels of twelve. *)
Example hello_world_again_processed :
  processSegments hello_world_again
  = [mkSegment 0 2 "Hello."; mkSegment 2 4 "World"; mkSegment 4 6 "Again?"].
Proof. reflexivity. Qed.

Example twelve_labels :
  map speaker (processSegments (replicate 12 (providerSegment 0 1 "Hi")))
  = map (fun s => Some (lit s))
      (replicate 5 "Speaker 1"%string ++ replicate 5 "Speaker 2"%string
       ++ replicate 2 "Speaker 3"%string).
Proof. vm_compute. reflexivity. Qed.

(** *** The set of speakers *)

Lemma identifySpeakers_snoc segments_ segment :
  identifySpeakers (segments_ ++ [segment])
  = add_speaker (identifySpeakers segments_) segment.
Proof. unfold identifySpeakers. by rewrite foldl_snoc. Qed.

Lemma Set_add_NoDup s x : NoDup s → NoDup (Set_add s x).
Proof.
  intros Hs. unfold Set_add. case_bool_decide; [done|].
  apply NoDup_app. repeat split; [done| |apply NoDup_singleton].
  intros y Hy ->%list_elem_of_singleton. done.
Qed.

Lemma elem_of_Set_add s x y : y ∈ Set_add s x ↔ y ∈ s ∨ y = x.
Proof.
  unfold Set_add. case_bool_decide.
  - split; [by left|]. intros [?| ->]; done.
  - rewrite elem_of_app, list_elem_of_singleton. done.
Qed.

Lemma first_appearance_lt s segments_ a :
  first_appearance s segments_ = Some a → a < length segments_.
Proof.
  revert a. induction segments_ as [|x l IH]; intros a; cbn [first_appearance length]; [done|].
  case_bool_decide.
  - intros [= <-]. lia.
  - destruct (first_appearance s l) as [b|]; cbn; [|done].
    intros [= <-]. specialize (IH b eq_refl). lia.
Qed.

Lemma first_appearance_snoc s segments_ x :
  first_appearance s (segments_ ++ [x])
  = match first_appearance s segments_ with
    | Some a => Some a
    | None => if bool_decide (speaker x = Some s) then Some (length segments_) else None
    end.
Proof.
  induction segments_ as [|y l IH]; cbn [first_appearance app length].
  - by case_bool_decide.
  - destruct (bool_decide (speaker y = Some s)); [done|]. rewrite IH.
    destruct (first_appearance s l); cbn; [done|].
    by case_bool_decide.
Qed.

Lemma first_appearance_None s segments_ :
  first_appearance s segments_ = None ↔ ∀ x, x ∈ segments_ → speaker x ≠ Some s.
Proof.
  induction segments_ as [|y l IH]; cbn [first_appearance].
  - split; [|done]. intros _ x Hx. by apply elem_of_nil in Hx.
  - case_bool_decide as Hy.
    + split; [done|]. intros H. destruct (H y); [left|done].
    + destruct (first_appearance s l) eqn:E; cbn.
      * split; [done|]. intros H. assert (Some n = None) as [=].
        apply IH. intros x Hx. apply H. by right.
      * split; [|done]. intros _ x [->|Hx]%elem_of_cons; [done|].
        by apply IH.
Qed.

(** What [identifySpeakers] computes on any sequence of segments: the
    non-empty labels, each once, in the order in which they first occur. *)
Lemma identifySpeakers_spec (segments_ : list TranscriptionSegment) :
  NoDup (identifySpeakers segments_)
  ∧ (∀ s, s ∈ identifySpeakers segments_
          ↔ s ≠ [] ∧ ∃ x, x ∈ segments_ ∧ speaker x = Some s)
  ∧ (∀ i j s t,
        identifySpeakers segments_ !! i = Some s →
        identifySpeakers segments_ !! j = Some t →
        i < j →
        ∃ a b, first_appearance s segments_ = Some a
               ∧ first_appearance t segments_ = Some b ∧ a < b).
Proof.
  induction segments_ as [|x l (IHnd & IHin & IHord)] using rev_ind.
  { split; [apply NoDup_nil_2|split].
    - intros s. split; [by intros ?%elem_of_nil|].
      by intros (_ & x & ?%elem_of_nil & _).
    - intros i j s t Hi. done. }
  rewrite identifySpeakers_snoc.
  assert (Hin' : ∀ s, s ∈ add_speaker (identifySpeakers l) x
                      ↔ s ≠ [] ∧ ∃ y, y ∈ l ++ [x] ∧ speaker y = Some s).
  { intros s. unfold add_speaker.
    destruct (speaker x) as [sp|] eqn:Hsp.
    - destruct sp as [|c sp]; simpl.
      + rewrite IHin. split.
        * intros (? & y & ? & ?). split; [done|]. exists y. split; [|done].
          apply elem_of_app. by left.
        * intros (Hs & y & [Hy| ->%list_elem_of_singleton]%elem_of_app & Hy').
          -- split; [done|]. by exists y.
          -- congruence.
      + rewrite elem_of_Set_add, IHin. split.
        * intros [(? & y & ? & ?)| ->].
          -- split; [done|]. exists y. split; [|done]. apply elem_of_app. by left.
          -- split; [done|]. exists x. split; [|done]. apply elem_of_app. right.
             by apply list_elem_of_singleton.
        * intros (Hs & y & [Hy| ->%list_elem_of_singleton]%elem_of_app & Hy').
          -- left. split; [done|]. by exists y.
          -- right. congruence.
    - rewrite IHin. split.
      + intros (? & y & ? & ?). split; [done|]. exists y. split; [|done].
        apply elem_of_app. by left.
      + intros (Hs & y & [Hy| ->%list_elem_of_singleton]%elem_of_app & Hy').
        * split; [done|]. by exists y.
        * congruence. }
  split; [|split; [exact Hin'|]].
  { unfold add_speaker. destruct (speaker x) as [sp|]; [|done].
    destruct (truthy_string sp); [|done]. by apply Set_add_NoDup. }
  assert (Hold : ∀ i j s t,
             identifySpeakers l !! i = Some s → identifySpeakers l !! j = Some t →
             i < j →
             ∃ a b, first_appearance s (l ++ [x]) = Some a
                    ∧ first_appearance t (l ++ [x]) = Some b ∧ a < b).
  { intros i j s t Hi Hj Hij.
    destruct (IHord i j s t Hi Hj Hij) as (a & b & Ha & Hb & Hab).
    exists a, b. rewrite !first_appearance_snoc, Ha, Hb. done. }
  unfold add_speaker.
  destruct (speaker x) as [sp|] eqn:Hsp; [|exact Hold].
  destruct (truthy_string sp) eqn:Htr; [|exact Hold].
  unfold Set_add. case_bool_decide as Hmem; [exact Hold|].
  intros i j s t Hi Hj Hij.
  assert (Hj' : j < length (identifySpeakers l ++ [sp])) by by eapply lookup_lt_Some.
  rewrite length_app in Hj'. simpl in Hj'.
  assert (Hilt : i < length (identifySpeakers l)) by lia.
  rewrite lookup_app_l in Hi by done.
  destruct (decide (j < length (identifySpeakers l))) as [Hjlt|Hjge].
  { rewrite lookup_app_l in Hj by done. by eapply Hold. }
  assert (j = length (identifySpeakers l)) as -> by lia.
  rewrite lookup_app_r, Nat.sub_diag in Hj by lia. simpl in Hj.
  injection Hj as <-.
  assert (Hs : s ∈ identifySpeakers l) by (apply list_elem_of_lookup; eauto).
  apply IHin in Hs as (Hne & y & Hy & Hys).
  destruct (first_appearance s l) as [a|] eqn:Ha.
  2:{ exfalso. eapply first_appearance_None in Ha; [|exact Hy]. done. }
  assert (Hb : first_appearance sp l = None).
  { apply first_appearance_None. intros z Hz Hzs. apply Hmem, IHin.
    split; [by destruct sp|]. by exists z. }
  exists a, (length l). rewrite !first_appearance_snoc, Ha, Hb.
  rewrite bool_decide_eq_true_2 by done.
  split; [done|split; [done|]]. by eapply first_appearance_lt.
Qed.

Lemma label_nonempty i : lit "Speaker " ++ decimal (i / 5 + 1) ≠ [].
Proof. done. Qed.

Lemma processed_speaker_nonempty (raw : list ProviderSegment) x s :
  x ∈ processSegments raw → speaker x = Some s → s ≠ [].
Proof.
  intros (i & _ & Hx)%processSegments_speaker Hs.
  rewrite Hx in Hs. injection Hs as <-. apply label_nonempty.
Qed.

(** What a successful transcription returns. *)
Lemma transcribeAudio_Ok env audioBlob filename t result t' :
  transcribeAudio env audioBlob filename t = (Ok result, t') →
  ∃ raw,
    segments result = processSegments raw
    ∧ speakers result = identifySpeakers (segments result)
    ∧ confidence result = calculateAverageConfidence (segments result).
Proof.
  unfold transcribeAudio, bind, try_catch, emit, throw, lift, ret.
  intros H. repeat (case_match; try discriminate).
  all: repeat match goal with E : (Ok _, _) = (Ok _, _) |- _ => injection E as E1 E2; subst end.
  all: cbn [segments speakers confidence]; eexists; repeat split; reflexivity.
Qed.

(** C6. The [speakers] of a produced transcript hold every speaker of its
    segments, each once, ordered by first appearance. *)
Theorem speakers_of_transcript env audioBlob filename t result t' :
  transcribeAudio env audioBlob filename t = (Ok result, t') →
  NoDup (speakers result)
  ∧ (∀ s, s ∈ speakers result ↔ ∃ x, x ∈ segments result ∧ speaker x = Some s)
  ∧ (∀ i j s u,
        speakers result !! i = Some s →
        speakers result !! j = Some u →
        i < j →
        ∃ a b, first_appearance s (segments result) = Some a
               ∧ first_appearance u (segments result) = Some b ∧ a < b).
Proof.
  intros (raw & Hsegs & -> & _)%transcribeAudio_Ok.
  destruct (identifySpeakers_spec (segments result)) as (Hnd & Hin & Hord).
  split; [done|split; [|done]].
  intros s. rewrite Hin. split; [by intros (_ & ?)|].
  intros (x & Hx & Hs). split; [|by exists x].
  rewrite Hsegs in Hx. by eapply processed_speaker_nonempty.
Qed.

Lemma speakers_of_transcript_witness :
  ∃ result t',
    transcribeAudio Examples.studio {| blob_bytes := []; blob_type := lit "audio/wav" |}
      (lit "space.wav") [] = (Ok result, t')
    ∧ speakers result = [lit "Speaker 1"; lit "Speaker 2"]
    ∧ NoDup (speakers result).
Proof.
  eexists _, _. split; [vm_compute; reflexivity|].
  split; [reflexivity|].
  refine (proj1 (speakers_of_transcript Examples.studio
                   {| blob_bytes := []; blob_type := lit "audio/wav" |}
                   (lit "space.wav") [] _ _ _)).
  vm_compute; reflexivity.
Defined.

(** *** The confidence heuristic *)

Lemma startsWith_nil (s : jsstring) : startsWith s [] = true.
Proof. by destruct s. Qed.

Lemma includes_code_unit (s : jsstring) (c : N) :
  includes s [c] = bool_decide (c ∈ s).
Proof.
  induction s as [|x r IH]; cbn [includes startsWith].
  - symmetry. apply bool_decide_eq_false. intros H. by apply elem_of_nil in H.
  - rewrite IH, startsWith_nil, andb_true_r.
    destruct (N.eqb_spec c x) as [->|Hne]; cbn [orb].
    + symmetry. apply bool_decide_eq_true. apply list_elem_of_here.
    + apply bool_decide_ext. rewrite elem_of_cons. split; [by right|].
      intros [Heq|Hin]; [contradiction|exact Hin].
Qed.

Lemma segmentConfidence_contains segment :
  segmentConfidence segment = contains_segment_score segment.
Proof.
  unfold segmentConfidence, contains_segment_score, base_plus_bonuses, pace_in_range.
  change (lit ".") with [46%N]. change (lit "?") with [63%N].
  by rewrite !includes_code_unit.
Qed.

Lemma running_sum_map {A} (f : A → float) (l : list A) (a : float) :
  foldl (fun total x => (total + f x)%float) a l = foldl PrimFloat.add a (map f l).
Proof. revert a. induction l as [|x l IH]; intros a; simpl; [done|apply IH]. Qed.

Lemma calculateAverageConfidence_mean segment rest :
  calculateAverageConfidence (segment :: rest)
  = float_mean (map segmentConfidence (segment :: rest)).
Proof.
  unfold calculateAverageConfidence, float_mean.
  by rewrite running_sum_map, length_map.
Qed.

(** C2, with "contains" where the claim has "ends with". The score of a
    segment is 0.8, plus 0.1 when the length of its text divided by
    [max(end - start, 1)] lies strictly between 2 and 8, plus 0.05 when its
    text contains a full stop or a question mark, capped at 0.95; the
    transcript confidence is the mean of the scores. *)
Theorem confidence_heuristic (segments_ : list TranscriptionSegment) :
  (∀ segment, segmentConfidence segment = contains_segment_score segment)
  ∧ calculateAverageConfidence segments_
    = match segments_ with
      | [] => 0%float
      | _ :: _ => float_mean (map contains_segment_score segments_)
      end.
Proof.
  split; [apply segmentConfidence_contains|].
  destruct segments_ as [|x l]; [done|].
  rewrite calculateAverageConfidence_mean. f_equal.
  apply map_ext. intros. apply segmentConfidence_contains.
Qed.

Lemma float_neq (x y : float) : Prim2SF x ≠ Prim2SF y → x ≠ y.
Proof. congruence. Qed.

(** C2 as stated fails on a text with a full stop inside: the code adds
    the 0.05, "ends with" does not. *)
Lemma ends_with_counterexample :
  segmentConfidence (mkSegment 0 4 "Dr. Smith agreed")
    ≠ spec_segment_score (mkSegment 0 4 "Dr. Smith agreed")
  ∧ calculateAverageConfidence [mkSegment 0 4 "Dr. Smith agreed"]
    ≠ float_mean (map spec_segment_score [mkSegment 0 4 "Dr. Smith agreed"]).
Proof. split; apply float_neq; vm_compute; discriminate. Qed.

Example dr_smith_scores :
  segmentConfidence (mkSegment 0 4 "Dr. Smith agreed") = 0.95%float
  ∧ spec_segment_score (mkSegment 0 4 "Dr. Smith agreed") = 0.9%float.
Proof. split; vm_compute; reflexivity. Qed.

(** The scenario of three segments: every score is at least 0.8, and the
    confidence is their mean. *)
Example three_segments :
  map segmentConfidence (processSegments hello_world_again)
  = [0.95%float; 0.9%float; 0.95%float]
  ∧ calculateAverageConfidence (processSegments hello_world_again)
    = ((0.95 + 0.9 + 0.95) / 3)%float.
Proof. split; vm_compute; reflexivity. Qed.









(** The running sum of six scores of 0.95, as the loop computes it. *)
Example six_running_sums :
  map (fun k => foldl PrimFloat.add 0%float (replicate k 0.95%float)) [1; 2; 3; 4; 5; 6]
  = [0.95; 1.9; 2.8499999999999996; 3.8; 4.75; 5.7]%float.
Proof. vm_compute. reflexivity. Qed.

Example six_full_scores :
  map segmentConfidence (replicate 6 (mkSegment 0 4 "Hello world."))
  = replicate 6 0.95%float
  ∧ calculateAverageConfidence (replicate 6 (mkSegment 0 4 "Hello world."))
    = 0.9500000000000001%float.
Proof. split; vm_compute; reflexivity. Qed.

End TranscriptionFacts.

(** ** Interpreting the provider's answer *)

Module SummaryFacts.

Import SummaryService.

Lemma neutral_valid : neutral ∈ validSentiments.
Proof. unfold validSentiments. do 2 apply list_elem_of_further. apply list_elem_of_here. Qed.

Lemma validateSentiment_valid v : validateSentiment v ∈ validSentiments.
Proof.
  unfold validateSentiment.
  destruct v as [[| | |s| |]|]; try apply neutral_valid.
  case_bool_decide; [done|apply neutral_valid].
Qed.

Lemma validateSentiment_unrecognized v :
  (∀ s, v = Some (JStr s) → s ∉ validSentiments) → validateSentiment v = neutral.
Proof.
  intros H. unfold validateSentiment.
  destruct v as [[| | |s| |]|]; try done.
  case_bool_decide as Hs; [|done]. by destruct (H s).
Qed.

Lemma validateSentiment_recognized s :
  s ∈ validSentiments → validateSentiment (Some (JStr s)) = s.
Proof. intros H. unfold validateSentiment. by rewrite bool_decide_eq_true_2. Qed.

Lemma match_alternatives_elem alts s word :
  match_alternatives alts s = Some word → word ∈ alts.
Proof.
  assert (Hhere : ∀ u a, List.find (startsWith u) alts = Some a → a ∈ alts).
  { intros u a Hfind. apply list_elem_of_In.
    apply find_some in Hfind as [Hin _]. exact Hin. }
  induction s as [|c r IH]; cbn [match_alternatives];
    destruct (List.find _ alts) as [a|] eqn:Hfind.
  - intros [= <-]. by eapply Hhere.
  - discriminate.
  - intros [= <-]. by eapply Hhere.
  - exact IH.
Qed.

Lemma text_step_sentiment rt st line :
  st_sentiment st ∈ validSentiments →
  st_sentiment (text_step rt st line) ∈ validSentiments.
Proof.
  intros H. unfold text_step, set_section.
  repeat (case_match; try done).
  cbn [st_sentiment]. by eapply match_alternatives_elem.
Qed.

Lemma text_loop_sentiment rt lines st :
  st_sentiment st ∈ validSentiments →
  st_sentiment (foldl (text_step rt) st lines) ∈ validSentiments.
Proof.
  revert st. induction lines as [|line rest IH]; intros st H; [done|].
  cbn [foldl]. by apply IH, text_step_sentiment.
Qed.

Lemma parseTextResponse_sentiment rt content speakers_ :
  sentiment (parseTextResponse rt content speakers_) ∈ validSentiments.
Proof.
  unfold parseTextResponse. cbn [sentiment].
  apply text_loop_sentiment. apply neutral_valid.
Qed.

Lemma parseSummaryResponse_object rt content speakers_ jsonMatch fields :
  match_braces content = Some jsonMatch →
  JSON_parse rt jsonMatch = Ok (JObj fields) →
  parseSummaryResponse rt content speakers_ = Ok (of_object fields speakers_).
Proof.
  intros Hm Hp. unfold parseSummaryResponse, parse_json_block.
  rewrite Hm, Hp. reflexivity.
Qed.

Lemma parseSummaryResponse_cases rt content speakers_ :
  parseSummaryResponse rt content speakers_ = Ok (parseTextResponse rt content speakers_)
  ∨ ∃ jsonMatch parsed,
      match_braces content = Some jsonMatch
      ∧ JSON_parse rt jsonMatch = Ok parsed
      ∧ ∃ r, parseSummaryResponse rt content speakers_ = Ok r
             ∧ sentiment r = validateSentiment
                               (match get parsed (lit "sentiment") with
                                | Ok v => v
                                | Err _ => None
                                end).
Proof.
  unfold parseSummaryResponse, parse_json_block.
  destruct (match_braces content) as [jsonMatch|]; [|by left].
  destruct (JSON_parse rt jsonMatch) as [parsed|e] eqn:Hp; [|by left].
  destruct (get parsed (lit "summary")) eqn:Hg; [|by left].
  right. exists jsonMatch, parsed. do 2 (split; [done|]).
  eexists. split; reflexivity.
Qed.

Lemma array_or_not_array v d :
  (∀ items, v ≠ Some (JArr items)) → array_or v d = d.
Proof. intros H. destruct v as [[| | | |items|]|]; try done. by destruct (H items). Qed.

Lemma parseSummaryResponse_fallback rt content speakers_ :
  (match_braces content = None
   ∨ ∃ jsonMatch e, match_braces content = Some jsonMatch
                    ∧ JSON_parse rt jsonMatch = Err e) →
  parseSummaryResponse rt content speakers_
  = Ok (parseTextResponse rt content speakers_).
Proof.
  unfold parseSummaryResponse, parse_json_block.
  intros [->|(m & e & -> & ->)]; reflexivity.
Qed.

Lemma parseSummaryResponse_Ok rt content speakers_ :
  ∃ r, parseSummaryResponse rt content speakers_ = Ok r
       ∧ sentiment r ∈ validSentiments.
Proof.
  destruct (parseSummaryResponse_cases rt content speakers_)
    as [H|(m & parsed & _ & _ & r & Hr & Hs)].
  - eexists. split; [exact H|apply parseTextResponse_sentiment].
  - exists r. split; [exact Hr|]. rewrite Hs. apply validateSentiment_valid.
Qed.

(** C1. Parsing always returns a result, whose sentiment is one of the
    four values; when the brace block parses to an object, an absent or
    unrecognized sentiment becomes "neutral", an absent or non-array
    [keyPoints], [topics] or [actionItems] becomes the empty sequence, and an
    absent [participants] becomes the speaker list of the caller; when there
    is no brace block or it is not JSON, the text fallback answers. *)
Theorem parseSummaryResponse_total rt (content : jsstring) (speakers_ : list jsstring) :
  (∃ r, parseSummaryResponse rt content speakers_ = Ok r
        ∧ sentiment r ∈ validSentiments)
  ∧ (∀ jsonMatch fields,
        match_braces content = Some jsonMatch →
        JSON_parse rt jsonMatch = Ok (JObj fields) →
        ∃ r, parseSummaryResponse rt content speakers_ = Ok r
             ∧ ((∀ s, lookup_field (lit "sentiment") fields = Some (JStr s) →
                      s ∉ validSentiments) →
                sentiment r = neutral)
             ∧ ((∀ items, lookup_field (lit "keyPoints") fields ≠ Some (JArr items)) →
                keyPoints r = [])
             ∧ ((∀ items, lookup_field (lit "topics") fields ≠ Some (JArr items)) →
                topics r = [])
             ∧ ((∀ items, lookup_field (lit "actionItems") fields ≠ Some (JArr items)) →
                actionItems r = [])
             ∧ (lookup_field (lit "participants") fields = None →
                participants r = strings speakers_))
  ∧ ((match_braces content = None
      ∨ ∃ jsonMatch e, match_braces content = Some jsonMatch
                       ∧ JSON_parse rt jsonMatch = Err e) →
     parseSummaryResponse rt content speakers_
     = Ok (parseTextResponse rt content speakers_)).
Proof.
  split; [apply parseSummaryResponse_Ok|split].
  - intros jsonMatch fields Hm Hp. exists (of_object fields speakers_).
    split; [by eapply parseSummaryResponse_object|].
    cbn [of_object sentiment keyPoints topics actionItems participants].
    split; [apply validateSentiment_unrecognized|].
    do 3 (split; [apply array_or_not_array|]).
    by intros ->.
  - apply parseSummaryResponse_fallback.
Qed.

Lemma parseSummaryResponse_total_witness :
  ∃ jsonMatch fields r,
    match_braces sample_answer = Some jsonMatch
    ∧ JSON_parse sample_runtime jsonMatch = Ok (JObj fields)
    ∧ parseSummaryResponse sample_runtime sample_answer [lit "Speaker 1"] = Ok r
    ∧ sentiment r = neutral
    ∧ keyPoints r = []
    ∧ participants r = [JStr (lit "Speaker 1")].
Proof.
  pose proof (parseSummaryResponse_total sample_runtime sample_answer [lit "Speaker 1"])
    as (_ & H & _).
  edestruct H as (r & Hr & Hsent & Hkp & _ & _ & Hpart);
    [vm_compute; reflexivity|vm_compute; reflexivity|].
  eexists _, _, r. split; [vm_compute; reflexivity|].
  split; [vm_compute; reflexivity|].
  split; [exact Hr|]. split; [|split].
  - apply Hsent. intros s [= <-]. vm_compute. intros Hin.
    repeat (apply elem_of_cons in Hin as [Hin|Hin]; [discriminate|]).
    by apply elem_of_nil in Hin.
  - apply Hkp. intros items. vm_compute. discriminate.
  - apply Hpart. reflexivity.
Defined.

Lemma lower_no_json : is_ascii (lit "no json here at all").
Proof. unfold is_ascii. repeat (constructor; [reflexivity|]). constructor. Qed.

(** C5. The answer "no json here at all" yields the three placeholders. *)
Theorem no_json_here rt (speakers_ : list jsstring) :
  (∀ s, is_ascii s → toLowerCase rt s = ascii_toLowerCase s) →
  ∃ r, parseSummaryResponse rt (lit "no json here at all") speakers_ = Ok r
       ∧ summary r = JStr (lit "Summary could not be generated.")
       ∧ sentiment r = lit "neutral"
       ∧ keyPoints r = [JStr (lit "Key points could not be extracted.")].
Proof.
  intros Hlower. eexists. split.
  - apply parseSummaryResponse_fallback. left. vm_compute. reflexivity.
  - unfold parseTextResponse.
    replace (List.filter _ (split 10 (lit "no json here at all")))
      with [lit "no json here at all"] by (vm_compute; reflexivity).
    cbn [foldl]. unfold text_step.
    replace (trim (lit "no json here at all")) with (lit "no json here at all")
      by (vm_compute; reflexivity).
    rewrite (Hlower _ lower_no_json).
    vm_compute. repeat split; reflexivity.
Qed.

Lemma no_json_here_witness :
  (∀ s, is_ascii s → toLowerCase sample_runtime s = ascii_toLowerCase s)
  ∧ ∃ r, parseSummaryResponse sample_runtime (lit "no json here at all") [] = Ok r
         ∧ summary r = JStr (lit "Summary could not be generated.")
         ∧ sentiment r = lit "neutral"
         ∧ keyPoints r = [JStr (lit "Key points could not be extracted.")].
Proof.
  assert (H : ∀ s, is_ascii s → toLowerCase sample_runtime s = ascii_toLowerCase s)
    by reflexivity.
  split; [exact H|]. exact (no_json_here sample_runtime [] H).
Defined.

End SummaryFacts.

(** ** The WAV encoder *)

Module AudioFacts.

Import AudioService.

























Lemma toInt16_range x : (-32768 ≤ toInt16 x ≤ 32767)%Z.
Proof.
  unfold toInt16.
  pose proof (Z.mod_pos_bound (integer_of x) 65536 eq_refl).
  destruct (32768 <=? integer_of x mod 65536)%Z eqn:E; lia.
Qed.




(** What the encoder stores for some samples: full scale, beyond full
    scale, half scale (truncated) and not-a-number. *)
Example encoded_samples :
  map (fun x => toInt16 (scaled (clamp x)))
    [1%float; (-1)%float; 2.5%float; (-7)%float; 0.5%float; (-0.5)%float;
     0%float; PrimFloat.nan; PrimFloat.infinity]
  = [32767; -32768; 32767; -32768; 16383; -16384; 0; 0; 32767]%Z.
Proof. vm_compute. reflexivity. Qed.

Example ramp_container :
  audioBufferToWav ramp
  = Some ([82; 73; 70; 70; 48; 0; 0; 0; 87; 65; 86; 69; 102; 109; 116; 32;
           16; 0; 0; 0; 1; 0; 2; 0; 64; 31; 0; 0; 0; 125; 0; 0; 4; 0; 16; 0;
           100; 97; 116; 97; 12; 0; 0; 0;
           255; 127; 255; 127; 0; 128; 0; 128; 255; 63; 0; 0]%Z).
Proof. vm_compute. reflexivity. Qed.

End AudioFacts.

(** ** The provider calls *)

Module ProviderFacts.





Lemma app_two {A} (l : list A) (x y : A) : (l ++ [x]) ++ [y] = l ++ [x; y].
Proof. by rewrite <- app_assoc. Qed.





End ProviderFacts.

(** ** The orchestrator *)

Module PipelineFacts.

Import XSpaceService XSpaceMetadata.

Lemma only_adds_refl P t : only_adds P t t.
Proof. exists []. by rewrite app_nil_r. Qed.

Lemma only_adds_trans P t1 t2 t3 :
  only_adds P t1 t2 → only_adds P t2 t3 → only_adds P t1 t3.
Proof.
  intros (e1 & -> & H1) (e2 & -> & H2). exists (e1 ++ e2).
  split; [by rewrite app_assoc|by apply Forall_app].
Qed.

Lemma only_adds_one (P : Event → Prop) t e : P e → only_adds P t (t ++ [e]).
Proof. intros H. exists [e]. split; [done|by apply Forall_singleton]. Qed.

Lemma xspace_makeApiRequest_issued env target method_ authorization t :
  makeApiRequest env target method_ authorization t
  = (Ok (match network env t (issued env target method_ authorization) with
         | Ok response => Some response
         | Err _ => None
         end),
     t ++ [EvFetch (issued env target method_ authorization)]).
Proof.
  unfold makeApiRequest, issued, try_catch, bind, fetch, ret.
  destruct (_ && _); by destruct (network env t _).
Qed.

Lemma first_capture_truthy ps s g : first_capture ps s = Some g → truthy_string g = true.
Proof.
  induction ps as [|[prefix cls] rest IH]; cbn [first_capture]; [done|].
  destruct (match_capture prefix cls s) as [g'|]; [|exact IH].
  destruct (truthy_string g') eqn:Hg; [|exact IH]. by intros [= <-].
Qed.

Lemma extractSpaceId_truthy address spaceId :
  extractSpaceId address = Ok spaceId → truthy_string spaceId = true.
Proof.
  unfold extractSpaceId. destruct (negb _); [done|].
  destruct (first_capture patterns address) eqn:H; [|done].
  intros [= <-]. by eapply first_capture_truthy.
Qed.

(** The lookup of [extractSpaceMetadata], once the identifier is known and
    the token is configured. *)
Lemma extractSpaceMetadata_lookup env spaceUrl spaceId t :
  extractSpaceId spaceUrl = Ok spaceId →
  token_configured env = true →
  extractSpaceMetadata env spaceUrl t
  = (Ok (match network env (t ++ [EvCall OpExtractSpaceMetadata])
                 (lookup_request env spaceId) with
         | Ok response =>
             if ok response then
               match json response with
               | Ok (PSpace (Some space) host) => lookedUpMetadata spaceId space host
               | _ => basicMetadata spaceId
               end
             else basicMetadata spaceId
         | Err _ => basicMetadata spaceId
         end),
     t ++ [EvCall OpExtractSpaceMetadata; EvFetch (lookup_request env spaceId)]).
Proof.
  intros Hid Htoken.
  unfold extractSpaceMetadata, bind, try_catch, emit, throw, lift, ret.
  rewrite Hid, (extractSpaceId_truthy _ _ Hid), Htoken. cbn [negb].
  rewrite xspace_makeApiRequest_issued, ProviderFacts.app_two.
  fold (lookup_request env spaceId).
  destruct (network env _ _) as [response|]; [|done].
  destruct (ok response); [|done].
  destruct (json response) as [[| | |[space|] host| | |]|]; done.
Qed.

(** C10. [extractSpaceMetadata] always returns a record.  It is the
    fallback record with the identifier "unknown" when no identifier can be
    extracted from the address, and the fallback record with the
    extracted identifier when the lookup is not configured or fails. *)
Theorem extractSpaceMetadata_total env (spaceUrl : jsstring) (t : list Event) :
  ∃ metadata_ t',
    extractSpaceMetadata env spaceUrl t = (Ok metadata_, t')
    ∧ (∀ e, extractSpaceId spaceUrl = Err e →
            metadata_ = basicMetadata (lit "unknown")
            ∧ t' = t ++ [EvCall OpExtractSpaceMetadata])
    ∧ (∀ spaceId,
          extractSpaceId spaceUrl = Ok spaceId →
          (token_configured env = false →
           metadata_ = basicMetadata spaceId
           ∧ t' = t ++ [EvCall OpExtractSpaceMetadata])
          ∧ (token_configured env = true →
             lookup_failed (network env (t ++ [EvCall OpExtractSpaceMetadata])
                              (lookup_request env spaceId)) →
             metadata_ = basicMetadata spaceId))
    ∧ (∀ x, id (basicMetadata x) = x
            ∧ title (basicMetadata x) = lit "X Space Recording"
            ∧ hostUsername (basicMetadata x) = lit "Unknown"
            ∧ participantCount (basicMetadata x) = 0%float
            ∧ isLive (basicMetadata x) = false
            ∧ state (basicMetadata x) = lit "ended").
Proof.
  destruct (extractSpaceId spaceUrl) as [spaceId|e] eqn:Hid.
  2:{ eexists _, _. split.
      { unfold extractSpaceMetadata, bind, try_catch, emit, throw, lift, ret.
        rewrite Hid. reflexivity. }
      split; [by intros|]. split; [by intros|by intros]. }
  destruct (token_configured env) eqn:Htoken.
  - eexists _, _. split; [by apply extractSpaceMetadata_lookup|].
    split; [by intros|]. split; [|by intros].
    intros ? [= <-]. split; [done|]. intros _ Hfailed.
    unfold lookup_failed in Hfailed.
    destruct (network env _ _) as [response|]; [|done].
    destruct Hfailed as [->|[(e & Hj)|(data & Hj & Hshape)]]; [done| |].
    + destruct (ok response); [|done]. by rewrite Hj.
    + destruct (ok response); [|done]. rewrite Hj.
      destruct data as [| | |[space|] host| | |]; try done.
      by destruct (Hshape space host).
  - eexists _, _. split.
    { unfold extractSpaceMetadata, bind, try_catch, emit, throw, lift, ret.
      rewrite Hid, (extractSpaceId_truthy _ _ Hid), Htoken. reflexivity. }
    split; [by intros|]. split; [|by intros].
    intros ? [= <-]. split; [done|done].
Qed.

Lemma extractSpaceMetadata_total_witness :
  (∃ e, extractSpaceId (lit "not an address") = Err e)
  ∧ (∃ t', extractSpaceMetadata Examples.offline (lit "not an address") []
           = (Ok (basicMetadata (lit "unknown")), t'))
  ∧ extractSpaceId Examples.space_url = Ok (lit "1vOxwdyYWZqKB")
  ∧ token_configured Examples.offline = false
  ∧ (∃ t', extractSpaceMetadata Examples.offline Examples.space_url []
           = (Ok (basicMetadata (lit "1vOxwdyYWZqKB")), t')).
Proof.
  assert (Hbad : extractSpaceId (lit "not an address")
                 = Err (newError (lit "Invalid X Space URL format")))
    by (vm_compute; reflexivity).
  assert (Hgood : extractSpaceId Examples.space_url = Ok (lit "1vOxwdyYWZqKB"))
    by (vm_compute; reflexivity).
  assert (Htoken : token_configured Examples.offline = false) by reflexivity.
  split; [by eexists|]. split; [|split; [exact Hgood|split; [exact Htoken|]]].
  - destruct (extractSpaceMetadata_total Examples.offline (lit "not an address") [])
      as (m & t' & Hrun & Hunknown & _).
    destruct (Hunknown _ Hbad) as [-> _]. by exists t'.
  - destruct (extractSpaceMetadata_total Examples.offline Examples.space_url [])
      as (m & t' & Hrun & _ & Hknown & _).
    destruct (proj1 (Hknown _ Hgood) Htoken) as [-> _]. by exists t'.
Defined.

(** *** What the first two steps add to the trace *)

Lemma quiet_fetch request : quiet (EvFetch request).
Proof. reflexivity. Qed.

Lemma extractSpaceMetadata_quiet env spaceUrl t r t' :
  extractSpaceMetadata env spaceUrl t = (r, t') → only_adds quiet t t'.
Proof.
  destruct (extractSpaceId spaceUrl) as [spaceId|e] eqn:Hid.
  2:{ unfold extractSpaceMetadata, bind, try_catch, emit, throw, lift, ret.
      rewrite Hid. intros [= _ <-]. by apply only_adds_one. }
  destruct (token_configured env) eqn:Htoken.
  - rewrite (extractSpaceMetadata_lookup _ _ _ _ Hid Htoken). intros [= _ <-].
    exists [EvCall OpExtractSpaceMetadata; EvFetch (lookup_request env spaceId)].
    split; [done|]. by repeat constructor.
  - unfold extractSpaceMetadata, bind, try_catch, emit, throw, lift, ret.
    rewrite Hid, (extractSpaceId_truthy _ _ Hid), Htoken.
    intros [= _ <-]. by apply only_adds_one.
Qed.

Lemma probe_quiet env candidates t r t' :
  probe env candidates t = (r, t') → (∃ found, r = Ok found) ∧ only_adds quiet t t'.
Proof.
  revert t. induction candidates as [|candidate rest IH]; intros t.
  - intros [= <- <-]. split; [by eexists|apply only_adds_refl].
  - cbn [probe]. unfold bind. rewrite xspace_makeApiRequest_issued.
    assert (Hone : only_adds quiet t
                     (t ++ [EvFetch (issued env candidate (lit "HEAD") None)]))
      by apply only_adds_one, quiet_fetch.
    destruct (network env t _) as [response|].
    + destruct (ok response).
      * intros [= <- <-]. split; [by eexists|done].
      * intros H. destruct (IH _ H) as [? ?]. split; [done|].
        by eapply only_adds_trans.
    + intros H. destruct (IH _ H) as [? ?]. split; [done|].
      by eapply only_adds_trans.
Qed.

Lemma extractAudioUrl_quiet env spaceUrl t r t' :
  extractAudioUrl env spaceUrl t = (r, t') → only_adds quiet t t'.
Proof.
  unfold extractAudioUrl, bind, try_catch, emit, throw, lift, ret.
  assert (Hcall : only_adds quiet t (t ++ [EvCall OpExtractAudioUrl]))
    by by apply only_adds_one.
  destruct (extractSpaceId spaceUrl) as [spaceId|e]; [|by intros [= _ <-]].
  destruct (probe env (possibleUrls spaceId) _) as [direct t1] eqn:Hprobe.
  apply probe_quiet in Hprobe as [[found ->] Hprobe].
  assert (H1 : only_adds quiet t t1) by by eapply only_adds_trans.
  destruct found as [found|]; [by intros [= _ <-]|].
  destruct (token_configured env).
  2:{ by intros [= _ <-]. }
  rewrite xspace_makeApiRequest_issued.
  assert (H2 : only_adds quiet t
                 (t1 ++ [EvFetch (issued env
                                    (lit "https://api.twitter.com/2/spaces/" ++ spaceId
                                     ++ lit "/audio_stream") (lit "GET")
                                    (Some (Bearer (VITE_TWITTER_BEARER_TOKEN (config env)))))])).
  { eapply only_adds_trans; [exact H1|]. apply only_adds_one, quiet_fetch. }
  destruct (network env t1 _) as [response|]; [|by intros [= _ <-]].
  destruct (ok response); [|by intros [= _ <-]].
  destruct (json response) as [[| | | |[audio_url|]| |]|]; try by intros [= _ <-].
  by destruct (truthy_string audio_url); intros [= _ <-].
Qed.

Lemma extractAudioFromUrl_quiet env address t r t' :
  AudioService.extractAudioFromUrl env address t = (r, t') → only_adds quiet t t'.
Proof.
  unfold AudioService.extractAudioFromUrl, bind, try_catch, emit, throw, lift, ret, fetch.
  assert (H : only_adds quiet t
                (t ++ [EvCall OpExtractAudioFromUrl;
                       EvFetch {| url := address; method := lit "GET"; bearer := None;
                                  forwarded := None |}])).
  { eexists. split; [done|]. by repeat constructor. }
  rewrite ProviderFacts.app_two.
  destruct (network env _ _) as [response|]; [|by intros [= _ <-]].
  destruct (ok response); cbn [negb]; [|by intros [= _ <-]].
  by destruct (blob response); intros [= _ <-].
Qed.

Lemma obtainAudio_quiet env spaceUrl t r t' :
  obtainAudio env spaceUrl t = (r, t') → only_adds quiet t t'.
Proof.
  unfold obtainAudio, bind, ret.
  destruct (extractAudioUrl env spaceUrl t) as [[found|e] t1] eqn:Hurl.
  2:{ intros [= _ <-]. by eapply extractAudioUrl_quiet. }
  destruct (AudioService.extractAudioFromUrl env found t1) as [[audioBlob|e] t2] eqn:Hblob;
    intros [= _ <-].
  all: eapply only_adds_trans;
    [by eapply extractAudioUrl_quiet|by eapply extractAudioFromUrl_quiet].
Qed.

(** C8. When the audio cannot be obtained, [processXSpace] fails with the
    unavailable-source error and neither the conversion nor a later stage
    has been invoked.  When a later stage fails, [processXSpace] fails with
    the error of that stage; it returns a result only when every stage has
    succeeded, and the result then holds the output of each. *)
Theorem processXSpace_outcome env (spaceUrl : jsstring) (t t1 : list Event) metadata_ :
  extractSpaceMetadata env spaceUrl t = (Ok metadata_, t1) →
  (∀ e t2,
      obtainAudio env spaceUrl t1 = (Err e, t2) →
      processXSpace env spaceUrl t = (Err unavailable, t2) ∧ only_adds quiet t t2)
  ∧ (∀ audioUrl_ audioBlob t2,
        obtainAudio env spaceUrl t1 = (Ok (audioUrl_, audioBlob), t2) →
        (∀ e t3,
            AudioService.convertToWav env audioBlob t2 = (Err e, t3) →
            processXSpace env spaceUrl t = (Err e, t3))
        ∧ (∀ processedAudio t3,
              AudioService.convertToWav env audioBlob t2 = (Ok processedAudio, t3) →
              (∀ e t4,
                  TranscriptionService.transcribeAudio env processedAudio
                    (title metadata_ ++ lit ".wav") t3 = (Err e, t4) →
                  processXSpace env spaceUrl t = (Err e, t4))
              ∧ (∀ transcription_ t4,
                    TranscriptionService.transcribeAudio env processedAudio
                      (title metadata_ ++ lit ".wav") t3 = (Ok transcription_, t4) →
                    (∀ e t5,
                        SummaryService.generateSummary env (result_text transcription_)
                          (speakers transcription_) t4 = (Err e, t5) →
                        processXSpace env spaceUrl t = (Err e, t5))
                    ∧ (∀ summary' t5,
                          SummaryService.generateSummary env (result_text transcription_)
                            (speakers transcription_) t4 = (Ok summary', t5) →
                          processXSpace env spaceUrl t
                          = (Ok {| metadata := metadata_;
                                   transcription := transcription_;
                                   summary_ := summary';
                                   audioUrl := Some audioUrl_ |}, t5))))).
Proof.
  intros Hmeta. split.
  - intros e t2 Haudio. split.
    + unfold processXSpace, bind, try_catch, throw. by rewrite Hmeta, Haudio.
    + eapply only_adds_trans;
        [by eapply extractSpaceMetadata_quiet|by eapply obtainAudio_quiet].
  - intros audioUrl_ audioBlob t2 Haudio.
    assert (Hstart : ∀ k : jsstring * Blob → M XSpaceProcessingResult,
               bind (try_catch (obtainAudio env spaceUrl) (fun _ => throw unavailable)) k t1
               = k (audioUrl_, audioBlob) t2).
    { intros k. unfold bind, try_catch. by rewrite Haudio. }
    split.
    + intros e t3 Hwav. unfold processXSpace. unfold bind at 1. rewrite Hmeta, Hstart.
      unfold bind. by rewrite Hwav.
    + intros processedAudio t3 Hwav. split.
      * intros e t4 Htr. unfold processXSpace. unfold bind at 1. rewrite Hmeta, Hstart.
        unfold bind. by rewrite Hwav, Htr.
      * intros transcription_ t4 Htr. split.
        -- intros e t5 Hsum. unfold processXSpace. unfold bind at 1.
           rewrite Hmeta, Hstart. unfold bind. by rewrite Hwav, Htr, Hsum.
        -- intros summary' t5 Hsum. unfold processXSpace. unfold bind at 1.
           rewrite Hmeta, Hstart. unfold bind, ret. by rewrite Hwav, Htr, Hsum.
Qed.

Lemma processXSpace_outcome_witness :
  (∃ t2, processXSpace Examples.offline Examples.space_url [] = (Err unavailable, t2)
         ∧ only_adds quiet [] t2)
  ∧ (∃ t3, processXSpace Examples.broken_decoder Examples.space_url []
           = (Err Examples.undecodable, t3))
  ∧ (∃ e t4, processXSpace Examples.no_transcription Examples.space_url [] = (Err e, t4)
             ∧ message e
               = lit "Failed to transcribe audio: Transcription failed: Not Found")
  ∧ (∃ e t5, processXSpace Examples.no_completion Examples.space_url [] = (Err e, t5)
             ∧ message e
               = lit "Failed to generate summary: Summary generation failed: Not Found")
  ∧ (∃ r t5, processXSpace Examples.studio Examples.space_url [] = (Ok r, t5)
             ∧ speakers (transcription r) = [lit "Speaker 1"; lit "Speaker 2"]
             ∧ sentiment (summary_ r) = lit "neutral").
Proof.
  assert (Hmeta : ∀ env,
             token_configured env = false →
             extractSpaceMetadata env Examples.space_url []
             = (Ok (basicMetadata (lit "1vOxwdyYWZqKB")), [EvCall OpExtractSpaceMetadata])).
  { intros env Htoken.
    unfold extractSpaceMetadata, bind, try_catch, emit, throw, lift, ret.
    rewrite Htoken. reflexivity. }
  split; [|split; [|split; [|split]]].
  - destruct (processXSpace_outcome Examples.offline Examples.space_url [] _ _
                (Hmeta Examples.offline eq_refl)) as [Hfail _].
    eexists. eapply Hfail. vm_compute. reflexivity.
  - destruct (processXSpace_outcome Examples.broken_decoder Examples.space_url [] _ _
                (Hmeta Examples.broken_decoder eq_refl)) as [_ Hnext].
    edestruct Hnext as [Hwav _]; [vm_compute; reflexivity|].
    eexists. eapply Hwav. vm_compute. reflexivity.
  - destruct (processXSpace_outcome Examples.no_transcription Examples.space_url [] _ _
                (Hmeta Examples.no_transcription eq_refl)) as [_ Hnext].
    edestruct Hnext as [_ Hwav]; [vm_compute; reflexivity|].
    edestruct Hwav as [Htr _]; [vm_compute; reflexivity|].
    eexists _, _. split; [eapply Htr; vm_compute; reflexivity|reflexivity].
  - destruct (processXSpace_outcome Examples.no_completion Examples.space_url [] _ _
                (Hmeta Examples.no_completion eq_refl)) as [_ Hnext].
    edestruct Hnext as [_ Hwav]; [vm_compute; reflexivity|].
    edestruct Hwav as [_ Htr]; [vm_compute; reflexivity|].
    edestruct Htr as [Hsum _]; [vm_compute; reflexivity|].
    eexists _, _. split; [eapply Hsum; vm_compute; reflexivity|reflexivity].
  - destruct (processXSpace_outcome Examples.studio Examples.space_url [] _ _
                (Hmeta Examples.studio eq_refl)) as [_ Hnext].
    edestruct Hnext as [_ Hwav]; [vm_compute; reflexivity|].
    edestruct Hwav as [_ Htr]; [vm_compute; reflexivity|].
    edestruct Htr as [_ Hsum]; [vm_compute; reflexivity|].
    eexists _, _. split; [eapply Hsum; vm_compute; reflexivity|].
    split; reflexivity.
Defined.

End PipelineFacts.
